(** * Offline-first synchronisation layer of the DGAT frontend

    A shallow embedding of the TypeScript listings of
    [frontend/docs/frontend_Arc_Document.md] ("Offline-First Architecture"):
    [src/types/sync.ts], [src/services/db.ts], [src/services/syncService.ts],
    [src/services/organizations/organizationRepository.ts] and
    [src/hooks/organizations/useAddOrganization.ts].

    Promises are modelled by their settled outcome, the Dexie tables by
    finite maps and key-ordered row lists, and the remote server by an
    arbitrary state machine behind [organizationAPI]. IndexedDB itself is
    taken to work: a table operation settles as Dexie documents it for the
    table's contents ([Table.add] rejects an existing key, [Table.update]
    and [Table.delete] resolve whether or not the key exists) and never
    fails for lack of space or the like. *)

From stdpp Require Import gmap strings list fin_maps.
From Stdlib Require Import Lia Sorted.

Local Open Scope string_scope.
Local Open Scope list_scope.

(** ** Promises *)

(** The outcome of an awaited promise: the value it resolves with, or the
    [message] of the [Error] it rejects with. *)
Inductive Settled (A : Type) : Type :=
| Resolved (value : A)
| Rejected (message : string).
Arguments Resolved {A} value.
Arguments Rejected {A} message.

Definition is_resolved {A} (r : Settled A) : bool :=
  match r with Resolved _ => true | Rejected _ => false end.

Definition is_rejected {A} (r : Settled A) : bool := negb (is_resolved r).

(** ** [src/types/sync.ts] *)

Module SyncStatus.
Inductive t : Set := synced | pending | error.
#[global] Instance eq_dec : EqDecision t.
Proof. solve_decision. Defined.
End SyncStatus.

Module EntityKind.
Inductive t : Set := organization | assessment | user.
#[global] Instance eq_dec : EqDecision t.
Proof. solve_decision. Defined.
End EntityKind.

Module Action.
Inductive t : Set := create | update | delete.
#[global] Instance eq_dec : EqDecision t.
Proof. solve_decision. Defined.
End Action.

(** [Organization extends OfflineEntity] ([src/types/organization.ts]). *)
Module Organization.
Record t : Set := mk {
  id : string;
  name : string;
  syncStatus : SyncStatus.t;
  lastModified : string
}.
#[global] Instance eq_dec : EqDecision t.
Proof. solve_decision. Defined.

(** [Partial<Organization>] as passed to [Table.update]; the primary key is
    never part of the changes in the source. *)
Record Partial : Set := changes {
  p_name : option string;
  p_syncStatus : option SyncStatus.t;
  p_lastModified : option string
}.

Definition no_changes : Partial := changes None None None.

(** Object spread of the present properties of [c] over [o]. *)
Definition apply (c : Partial) (o : t) : t :=
  mk (id o)
     (default (name o) (p_name c))
     (default (syncStatus o) (p_syncStatus c))
     (default (lastModified o) (p_lastModified c)).
End Organization.

(** [payload] is [any] in the source; every payload the source builds or
    reads is the entity object, of which the service uses the [id]. *)
Module SyncQueueItem.
Record t : Set := mk {
  id : option nat;
  entity : EntityKind.t;
  action : Action.t;
  payload : Organization.t;
  retries : option nat;
  error : option string
}.
#[global] Instance eq_dec : EqDecision t.
Proof. solve_decision. Defined.

(** [Partial<SyncQueueItem>] restricted to the bookkeeping properties. *)
Record Partial : Set := changes {
  p_retries : option nat;
  p_error : option string
}.

Definition apply (c : Partial) (x : t) : t :=
  mk (id x) (entity x) (action x) (payload x)
     (match p_retries c with Some n => Some n | None => retries x end)
     (match p_error c with Some m => Some m | None => error x end).

(** The object literal [{ entity, action, payload }]. *)
Definition literal (e : EntityKind.t) (a : Action.t) (p : Organization.t) : t :=
  mk None e a p None None.

(** The entity a queue item is about: [item.payload.id]. *)
Definition entityId (x : t) : string := Organization.id (payload x).
End SyncQueueItem.

(** ** [src/services/db.ts]: the Dexie database *)

(** [organizations: "id, name, syncStatus, lastModified"] is a table keyed by
    the inbound property [id]; [sync_queue: "++id"] is a table whose key comes
    from an auto-increment generator, so its rows are kept in ascending key
    order, which is the order of insertion. [sync_queue_seq] is the last key
    the generator handed out. *)
Record AppDatabase : Type := mkDb {
  organizations : gmap string Organization.t;
  sync_queue : list SyncQueueItem.t;
  sync_queue_seq : nat
}.

Definition empty_db : AppDatabase := mkDb ∅ [] 0.

Definition set_organizations (m : gmap string Organization.t) (d : AppDatabase) : AppDatabase :=
  mkDb m (sync_queue d) (sync_queue_seq d).

Definition set_sync_queue (q : list SyncQueueItem.t) (d : AppDatabase) : AppDatabase :=
  mkDb (organizations d) q (sync_queue_seq d).

(** *** Dexie [Table] operations on [organizations] *)
Module OrganizationsTable.

(** [Table.toArray]: the rows, here in the order in which the map lists
    them (Dexie sorts by key; the source never depends on the order). *)
Definition toArray (d : AppDatabase) : list Organization.t :=
  (map_to_list (organizations d)).*2.

(** [Table.add]: rejects with a [ConstraintError] when the key exists. *)
Definition add (o : Organization.t) (d : AppDatabase) : Settled string * AppDatabase :=
  match organizations d !! Organization.id o with
  | Some _ => (Rejected "ConstraintError", d)
  | None => (Resolved (Organization.id o),
             set_organizations (<[Organization.id o := o]> (organizations d)) d)
  end.

(** [Table.update]: resolves with the number of rows modified, which is 0
    when the key is not found or the changes leave the row as it was. *)
Definition update (key : string) (c : Organization.Partial) (d : AppDatabase)
  : Settled nat * AppDatabase :=
  match organizations d !! key with
  | None => (Resolved 0, d)
  | Some o =>
      let o' := Organization.apply c o in
      if decide (o' = o) then (Resolved 0, d)
      else (Resolved 1, set_organizations (<[key := o']> (organizations d)) d)
  end.

(** [Table.delete]: resolves whether or not a row was there. *)
Definition delete (key : string) (d : AppDatabase) : Settled unit * AppDatabase :=
  (Resolved tt, set_organizations (base.delete key (organizations d)) d).

End OrganizationsTable.

(** *** Dexie [Table] operations on [sync_queue] *)
Module SyncQueueTable.

Definition toArray (d : AppDatabase) : list SyncQueueItem.t := sync_queue d.

Definition with_key (k : nat) (x : SyncQueueItem.t) : SyncQueueItem.t :=
  SyncQueueItem.mk (Some k) (SyncQueueItem.entity x) (SyncQueueItem.action x)
    (SyncQueueItem.payload x) (SyncQueueItem.retries x) (SyncQueueItem.error x).

(** [Table.add] of an item without [id] (the only form in the source): the
    generator supplies the next key and the row goes last. *)
Definition add (x : SyncQueueItem.t) (d : AppDatabase) : Settled nat * AppDatabase :=
  let k := S (sync_queue_seq d) in
  (Resolved k, mkDb (organizations d) (sync_queue d ++ [with_key k x]) k).

(** [Table.delete(item.id!)]: the non-null assertion is erased at run time,
    so the key is the [id] property as it is. *)
Definition delete (key : option nat) (d : AppDatabase) : Settled unit * AppDatabase :=
  (Resolved tt,
   set_sync_queue (filter (fun x => SyncQueueItem.id x ≠ key) (sync_queue d)) d).

Definition update (key : option nat) (c : SyncQueueItem.Partial) (d : AppDatabase)
  : Settled nat * AppDatabase :=
  let q' := (fun x => if decide (SyncQueueItem.id x = key)
                      then SyncQueueItem.apply c x else x) <$> sync_queue d in
  (Resolved (if decide (q' = sync_queue d) then 0 else 1), set_sync_queue q' d).

End SyncQueueTable.

(** What the key generator guarantees of the rows: every row has a key, no
    two rows share one, and no key is beyond the last one handed out. *)
Definition queue_wf (d : AppDatabase) : Prop :=
  NoDup (SyncQueueItem.id <$> sync_queue d) /\
  forall x, x ∈ sync_queue d ->
    exists k, SyncQueueItem.id x = Some k /\ k <= sync_queue_seq d.

(** ** [src/services/organizations/organizationRepository.ts] *)

Module Repository.
Record t : Type := mk {
  getAll : AppDatabase -> list Organization.t;
  add : Organization.t -> AppDatabase -> Settled string * AppDatabase;
  update : string -> Organization.Partial -> AppDatabase -> Settled nat * AppDatabase;
  delete : string -> AppDatabase -> Settled unit * AppDatabase
}.
End Repository.

Definition organizationRepository : Repository.t :=
  Repository.mk
    OrganizationsTable.toArray
    (fun org => OrganizationsTable.add org)
    (fun id changes => OrganizationsTable.update id changes)
    (fun id => OrganizationsTable.delete id).

(** ** [src/services/organizations/organizationAPI.ts] *)

(** A request that leaves the client through [apiClient]. *)
Inductive ApiCall : Set :=
| ApiCreate (org : Organization.t)
| ApiUpdate (id : string) (org : Organization.t)
| ApiDelete (id : string).

#[global] Instance ApiCall_eq_dec : EqDecision ApiCall.
Proof. solve_decision. Defined.

(** The methods the sync service calls. The server is outside the program:
    each method is a transition of an arbitrary server state [Remote] that
    settles with the response body or with the error message. *)
Module API.
Record t (Remote : Type) : Type := mk {
  create : Organization.t -> Remote -> Settled string * Remote;
  update : string -> Organization.t -> Remote -> Settled string * Remote;
  delete : string -> Remote -> Settled string * Remote
}.
Arguments mk {Remote}.
Arguments create {Remote}.
Arguments update {Remote}.
Arguments delete {Remote}.

Definition run {Remote} (a : t Remote) (c : ApiCall) : Remote -> Settled string * Remote :=
  match c with
  | ApiCreate org => create a org
  | ApiUpdate id org => update a id org
  | ApiDelete id => delete a id
  end.
End API.

(** ** The running application *)

(** The database, the [isSyncing] field of the [SyncService] singleton,
    [navigator.onLine], the server, and a record of every request sent with
    whether it succeeded (instrumentation, never read by the program). *)
Record World (Remote : Type) : Type := mkWorld {
  db : AppDatabase;
  isSyncing : bool;
  onLine : bool;
  remote : Remote;
  net_log : list (ApiCall * bool)
}.
Arguments mkWorld {Remote}.
Arguments db {Remote}.
Arguments isSyncing {Remote}.
Arguments onLine {Remote}.
Arguments remote {Remote}.
Arguments net_log {Remote}.

Section SyncService.
Context {Remote : Type}.
Variable organizationAPI : API.t Remote.

Local Abbreviation World := (World Remote).

Definition set_db (d : AppDatabase) (w : World) : World :=
  mkWorld d (isSyncing w) (onLine w) (remote w) (net_log w).

Definition set_isSyncing (b : bool) (w : World) : World :=
  mkWorld (db w) b (onLine w) (remote w) (net_log w).

Definition set_onLine (b : bool) (w : World) : World :=
  mkWorld (db w) (isSyncing w) b (remote w) (net_log w).

(** Awaiting a database operation inside the application. *)
Definition on_db {A} (op : AppDatabase -> Settled A * AppDatabase) (w : World)
  : Settled A * World :=
  let '(r, d) := op (db w) in (r, set_db d w).

(** Awaiting a request made through the API object [a]: the server moves and
    the request is recorded. *)
Definition send (a : API.t Remote) (c : ApiCall) (w : World) : Settled string * World :=
  let '(r, s) := API.run a c (remote w) in
  (r, mkWorld (db w) (isSyncing w) (onLine w) s (net_log w ++ [(c, is_resolved r)])).

(** ** [src/services/syncService.ts] *)

Record Handler : Type := mkHandler {
  api : API.t Remote;
  repo : Repository.t
}.

(** The registry [entityHandlers]: only [organization] has an entry. *)
Definition entityHandlers (e : EntityKind.t) : option Handler :=
  match e with
  | EntityKind.organization => Some (mkHandler organizationAPI organizationRepository)
  | _ => None
  end.

(** What reading [handler.api] of an [undefined] handler throws. *)
Definition undefined_handler_message : string :=
  "Cannot read properties of undefined (reading 'api')".

(** The request the [switch] on [item.action] sends. *)
Definition request (x : SyncQueueItem.t) : ApiCall :=
  match SyncQueueItem.action x with
  | Action.create => ApiCreate (SyncQueueItem.payload x)
  | Action.update => ApiUpdate (SyncQueueItem.entityId x) (SyncQueueItem.payload x)
  | Action.delete => ApiDelete (SyncQueueItem.entityId x)
  end.

Definition mark_synced : Organization.Partial :=
  Organization.changes None (Some SyncStatus.synced) None.

(** The body of the [try] block for one item. *)
Definition try_push (x : SyncQueueItem.t) (w : World) : Settled unit * World :=
  match entityHandlers (SyncQueueItem.entity x) with
  | None => (Rejected undefined_handler_message, w)
  | Some handler =>
      match send (api handler) (request x) w with
      | (Rejected m, w1) => (Rejected m, w1)
      | (Resolved _, w1) =>
          let w2 :=
            if decide (SyncQueueItem.action x ≠ Action.delete)
            then (on_db (Repository.update (repo handler)
                           (SyncQueueItem.entityId x) mark_synced) w1).2
            else w1 in
          (Resolved tt, (on_db (SyncQueueTable.delete (SyncQueueItem.id x)) w2).2)
      end
  end.

Definition record_error (m : string) : SyncQueueItem.Partial :=
  SyncQueueItem.changes None (Some m).

(** One iteration of the [for] loop: the [try] block and its [catch]. *)
Definition process_item (w : World) (x : SyncQueueItem.t) : World :=
  match try_push x w with
  | (Resolved _, w') => w'
  | (Rejected m, w') =>
      (on_db (SyncQueueTable.update (SyncQueueItem.id x) (record_error m)) w').2
  end.

(** [SyncService.processQueue]. *)
Definition processQueue (w : World) : World :=
  if isSyncing w || negb (onLine w) then w
  else
    let w1 := set_isSyncing true w in
    let queueItems := SyncQueueTable.toArray (db w1) in
    if decide (length queueItems = 0) then set_isSyncing false w1
    else set_isSyncing false (foldl process_item w1 queueItems).

(** ** [src/hooks/organizations/useAddOrganization.ts] *)

(** [mutationFn]; [uuid] is what [uuidv4()] returns and [now] what
    [new Date().toISOString()] returns. *)
Definition mutationFn (uuid now name : string) (w : World)
  : Settled Organization.t * World :=
  let newOrg := Organization.mk uuid name SyncStatus.pending now in
  match on_db (Repository.add organizationRepository newOrg) w with
  | (Resolved _, w') => (Resolved newOrg, w')
  | (Rejected m, w') => (Rejected m, w')
  end.

(** [onSuccess], which the mutation runs once [mutationFn] has resolved. *)
Definition onSuccess (newOrg : Organization.t) (w : World) : World :=
  (on_db (SyncQueueTable.add
            (SyncQueueItem.literal EntityKind.organization Action.create newOrg)) w).2.

(** A whole [mutate(name)] of [useAddOrganization]. *)
Definition useAddOrganization (uuid now name : string) (w : World)
  : Settled Organization.t * World :=
  match mutationFn uuid now name w with
  | (Resolved newOrg, w') => (Resolved newOrg, onSuccess newOrg w')
  | (Rejected m, w') => (Rejected m, w')
  end.

(** [useOrganizations]: the query function reads the repository. *)
Definition useOrganizations (w : World) : list Organization.t :=
  Repository.getAll organizationRepository (db w).

End SyncService.

(** ** Interleaving of the asynchronous functions *)

(** JavaScript runs one continuation at a time and only switches at an
    [await]. A [processQueue] call that got past its guard is suspended
    either at [await db.sync_queue.toArray()] or at the head of a loop
    iteration with the items still to be pushed. An iteration is taken as one
    step; a call that has returned is no longer listed. *)
Inductive Cycle : Set :=
| AwaitingQueue
| Pushing (rest : list SyncQueueItem.t).

(** [succeeded] holds the results of [mutationFn] calls whose [onSuccess]
    callback has not run yet. *)
Record System (Remote : Type) : Type := mkSystem {
  world : World Remote;
  cycles : list Cycle;
  succeeded : list Organization.t
}.
Arguments mkSystem {Remote}.
Arguments world {Remote}.
Arguments cycles {Remote}.
Arguments succeeded {Remote}.

Section Scheduling.
Context {Remote : Type}.
Variable organizationAPI : API.t Remote.

Local Abbreviation World := (World Remote).
Local Abbreviation System := (System Remote).

(** A call of [processQueue()] up to its first [await]: the guard and the
    assignment [this.isSyncing = true] run without interruption. *)
Definition trigger (s : System) : System :=
  if isSyncing (world s) || negb (onLine (world s)) then s
  else mkSystem (set_isSyncing true (world s)) (cycles s ++ [AwaitingQueue]) (succeeded s).

(** The continuation of the [i]-th suspended call up to its next [await] or
    its return. *)
Definition resume (i : nat) (c : Cycle) (s : System) : System :=
  let finish w := mkSystem (set_isSyncing false w) (base.delete i (cycles s)) (succeeded s) in
  match c with
  | AwaitingQueue =>
      let queueItems := SyncQueueTable.toArray (db (world s)) in
      if decide (length queueItems = 0) then finish (world s)
      else mkSystem (world s) (<[i := Pushing queueItems]> (cycles s)) (succeeded s)
  | Pushing [] => finish (world s)
  | Pushing (x :: rest) =>
      let w := process_item organizationAPI (world s) x in
      match rest with
      | [] => finish w
      | _ :: _ => mkSystem w (<[i := Pushing rest]> (cycles s)) (succeeded s)
      end
  end.

Inductive step : System -> System -> Prop :=
| step_trigger s :
    (* the 30 s timer, the "online" listener or the initial run *)
    step s (trigger s)
| step_resume s i c :
    cycles s !! i = Some c ->
    step s (resume i c s)
| step_connectivity s b :
    step s (mkSystem (set_onLine b (world s)) (cycles s) (succeeded s))
| step_mutationFn s uuid now name :
    step s (match mutationFn uuid now name (world s) with
            | (Resolved newOrg, w) => mkSystem w (cycles s) (succeeded s ++ [newOrg])
            | (Rejected _, w) => mkSystem w (cycles s) (succeeded s)
            end)
| step_onSuccess s i newOrg :
    succeeded s !! i = Some newOrg ->
    step s (mkSystem (onSuccess newOrg (world s)) (cycles s) (base.delete i (succeeded s))).

(** The application after [syncService] has been constructed: nothing is
    running yet. *)
Definition initial (s : System) : Prop :=
  isSyncing (world s) = false /\ cycles s = [] /\ succeeded s = [].

Inductive reachable : System -> Prop :=
| reachable_initial s : initial s -> reachable s
| reachable_step s s' : reachable s -> step s s' -> reachable s'.

End Scheduling.

(** ** Servers used in the examples *)

(** A server that follows a script: each request consumes one entry, [true]
    for a 2xx answer and [false] for a network error; past the end of the
    script every request succeeds. *)
Definition scripted_answer (script : list bool) : Settled string * list bool :=
  match script with
  | false :: rest => (Rejected "Network Error", rest)
  | true :: rest => (Resolved "{}", rest)
  | [] => (Resolved "{}", [])
  end.

Definition scripted_api : API.t (list bool) :=
  API.mk (fun _ => scripted_answer) (fun _ _ => scripted_answer) (fun _ => scripted_answer).

(** A server that is down: every request fails. *)
Definition offline_api : API.t unit :=
  API.mk (fun _ s => (Rejected "Network Error", s))
         (fun _ _ s => (Rejected "Network Error", s))
         (fun _ s => (Rejected "Network Error", s)).

Definition acme : Organization.t :=
  Organization.mk "org-1" "Acme" SyncStatus.pending "2025-01-01T00:00:00.000Z".

Definition acme_renamed : Organization.t :=
  Organization.mk "org-1" "Acme Ltd" SyncStatus.pending "2025-01-02T00:00:00.000Z".

Definition queued (k : nat) (e : EntityKind.t) (a : Action.t) (p : Organization.t)
  : SyncQueueItem.t :=
  SyncQueueItem.mk (Some k) e a p None None.

(** A world that is online and idle, with the given tables. *)
Definition idle {Remote} (orgs : list Organization.t) (q : list SyncQueueItem.t)
    (r : Remote) : World Remote :=
  mkWorld (mkDb (list_to_map ((fun o => (Organization.id o, o)) <$> orgs)) q (length q))
          false true r [].

(** * Properties *)

Ltac unfold_iteration := unfold process_item, try_push, send.
Ltac unfold_cycle := unfold processQueue.

Section Properties.
Context {Remote : Type}.
Variable organizationAPI : API.t Remote.

Local Abbreviation World := (World Remote).
Local Abbreviation process_item := (process_item organizationAPI).
Local Abbreviation processQueue := (processQueue organizationAPI).

(** The keys of the rows of the queue. *)
Definition queue_keys (w : World) : list (option nat) :=
  SyncQueueItem.id <$> sync_queue (db w).

(** Whether the remote call of the iteration for [x], started in [w],
    succeeds: [x] has a handler and the request it sends is answered. *)
Definition push_succeeds (x : SyncQueueItem.t) (w : World) : bool :=
  match entityHandlers organizationAPI (SyncQueueItem.entity x) with
  | None => false
  | Some handler => is_resolved (API.run (api handler) (request x) (remote w)).1
  end.

(** The message the [catch] block records when the iteration for [x] fails. *)
Definition failure_message (x : SyncQueueItem.t) (w : World) : string :=
  match try_push organizationAPI x w with
  | (Rejected m, _) => m
  | (Resolved _, _) => ""
  end.

(** [x] has an entry in [entityHandlers]. *)
Definition registered (x : SyncQueueItem.t) : Prop :=
  is_Some (entityHandlers organizationAPI (SyncQueueItem.entity x)).

#[local] Instance registered_dec x : Decision (registered x).
Proof. unfold registered. apply _. Defined.

(** The request of the iteration, if it sends one. *)
Definition sent (x : SyncQueueItem.t) (w : World) : list (ApiCall * bool) :=
  match entityHandlers organizationAPI (SyncQueueItem.entity x) with
  | None => []
  | Some _ => [(request x, push_succeeds x w)]
  end.

(** A row up to its [error] property. *)
Definition without_error (x : SyncQueueItem.t) : SyncQueueItem.t :=
  SyncQueueItem.mk (SyncQueueItem.id x) (SyncQueueItem.entity x)
    (SyncQueueItem.action x) (SyncQueueItem.payload x) (SyncQueueItem.retries x) None.

(** The invariant of the data model: an organization that still has a queue
    item is [pending] or [error], never [synced]. *)
Definition status_consistent (w : World) : Prop :=
  forall x o,
    x ∈ sync_queue (db w) ->
    SyncQueueItem.entity x = EntityKind.organization ->
    organizations (db w) !! SyncQueueItem.entityId x = Some o ->
    Organization.syncStatus o = SyncStatus.pending \/
    Organization.syncStatus o = SyncStatus.error.

(** No two queue items with a handler are about the same entity. *)
Definition one_item_per_entity (q : list SyncQueueItem.t) : Prop :=
  NoDup (SyncQueueItem.entityId <$> filter registered q).

(** [y] is the row [y0] up to the bookkeeping properties. *)
Definition same_item (y y0 : SyncQueueItem.t) : Prop :=
  SyncQueueItem.id y = SyncQueueItem.id y0 /\
  SyncQueueItem.entity y = SyncQueueItem.entity y0 /\
  SyncQueueItem.payload y = SyncQueueItem.payload y0.

(** The server answers no request. *)
Definition always_rejects : Prop :=
  forall c r, is_resolved (API.run organizationAPI c r).1 = false.

(** ** Database operations inside the application *)

Lemma on_db_world {A} (op : AppDatabase -> Settled A * AppDatabase) (w : World) :
  (on_db op w).2 = set_db (op (db w)).2 w.
Proof. unfold on_db. destruct (op (db w)); reflexivity. Qed.

(** ** The two outcomes of [mutationFn] *)

Lemma mutationFn_taken (w : World) uuid now name o :
  organizations (db w) !! uuid = Some o ->
  mutationFn uuid now name w = (Rejected "ConstraintError", w).
Proof.
  intros Hk. unfold mutationFn, on_db; simpl.
  unfold OrganizationsTable.add; simpl. rewrite Hk.
  destruct w; reflexivity.
Qed.

Lemma mutationFn_fresh (w : World) uuid now name :
  organizations (db w) !! uuid = None ->
  mutationFn uuid now name w =
    (Resolved (Organization.mk uuid name SyncStatus.pending now),
     set_db (set_organizations
               (<[uuid := Organization.mk uuid name SyncStatus.pending now]>
                  (organizations (db w))) (db w)) w).
Proof.
  intros Hk. unfold mutationFn, on_db; simpl.
  unfold OrganizationsTable.add; simpl. rewrite Hk. reflexivity.
Qed.

(** ** One iteration, case by case *)

Lemma process_item_no_handler (w : World) x :
  SyncQueueItem.entity x ≠ EntityKind.organization ->
  process_item w x =
    set_db (SyncQueueTable.update (SyncQueueItem.id x)
              (record_error undefined_handler_message) (db w)).2 w.
Proof.
  intros Hne. unfold_iteration.
  destruct (SyncQueueItem.entity x); [congruence | reflexivity | reflexivity].
Qed.

Lemma process_item_rejected (w : World) x m s :
  SyncQueueItem.entity x = EntityKind.organization ->
  API.run organizationAPI (request x) (remote w) = (Rejected m, s) ->
  process_item w x =
    mkWorld (SyncQueueTable.update (SyncQueueItem.id x) (record_error m) (db w)).2
            (isSyncing w) (onLine w) s (net_log w ++ [(request x, false)]).
Proof.
  intros He Hr. unfold_iteration.
  rewrite He; simpl. rewrite Hr; reflexivity.
Qed.

Lemma process_item_resolved (w : World) x v s :
  SyncQueueItem.entity x = EntityKind.organization ->
  API.run organizationAPI (request x) (remote w) = (Resolved v, s) ->
  process_item w x =
    mkWorld (SyncQueueTable.delete (SyncQueueItem.id x)
               (if decide (SyncQueueItem.action x ≠ Action.delete)
                then (OrganizationsTable.update (SyncQueueItem.entityId x)
                        mark_synced (db w)).2
                else db w)).2
            (isSyncing w) (onLine w) s (net_log w ++ [(request x, true)]).
Proof.
  intros He Hr. unfold_iteration.
  rewrite He; simpl. rewrite Hr; simpl.
  destruct (decide (SyncQueueItem.action x ≠ Action.delete));
    rewrite ?on_db_world; reflexivity.
Qed.

(** The three cases are exhaustive and [push_succeeds] tells them apart. *)
Lemma push_cases (w : World) x :
  (push_succeeds x w = false /\
   SyncQueueItem.entity x ≠ EntityKind.organization) \/
  (push_succeeds x w = false /\
   SyncQueueItem.entity x = EntityKind.organization /\
   exists m s, API.run organizationAPI (request x) (remote w) = (Rejected m, s)) \/
  (push_succeeds x w = true /\
   SyncQueueItem.entity x = EntityKind.organization /\
   exists v s, API.run organizationAPI (request x) (remote w) = (Resolved v, s)).
Proof.
  unfold push_succeeds.
  destruct (SyncQueueItem.entity x) eqn:He; simpl;
    [| left; split; [reflexivity | congruence] ..].
  destruct (API.run organizationAPI (request x) (remote w)) as [[v|m] s] eqn:Hr; simpl.
  - right; right. eauto.
  - right; left. eauto.
Qed.

(** What [Table.update] leaves in the table is the row altered in place. *)
Lemma organizations_update key c d :
  organizations (OrganizationsTable.update key c d).2 =
    alter (Organization.apply c) key (organizations d).
Proof.
  unfold OrganizationsTable.update.
  destruct (organizations d !! key) as [o|] eqn:Hk.
  - destruct (decide (Organization.apply c o = o)) as [Heq|Hneq]; simpl.
    + apply map_eq; intros j. rewrite lookup_alter.
      case_decide; subst; rewrite ?Hk; simpl; congruence.
    + apply map_eq; intros j. rewrite lookup_alter, lookup_insert.
      case_decide; subst; rewrite ?Hk; reflexivity.
  - simpl. apply map_eq; intros j. rewrite lookup_alter.
    case_decide; subst; rewrite ?Hk; reflexivity.
Qed.

Lemma sync_queue_update_organizations key c d :
  sync_queue (OrganizationsTable.update key c d).2 = sync_queue d.
Proof.
  unfold OrganizationsTable.update.
  destruct (organizations d !! key); [case_decide |]; reflexivity.
Qed.

(** ** The effect of one iteration on each part of the world *)

Lemma failure_message_no_handler (w : World) x :
  SyncQueueItem.entity x ≠ EntityKind.organization ->
  failure_message x w = undefined_handler_message.
Proof.
  intros Hne. unfold failure_message, try_push.
  destruct (SyncQueueItem.entity x); [congruence | reflexivity | reflexivity].
Qed.

Lemma failure_message_rejected (w : World) x m s :
  SyncQueueItem.entity x = EntityKind.organization ->
  API.run organizationAPI (request x) (remote w) = (Rejected m, s) ->
  failure_message x w = m.
Proof.
  intros He Hr. unfold failure_message, try_push, send.
  rewrite He; simpl. rewrite Hr; reflexivity.
Qed.

Ltac push_case w x :=
  let Hs := fresh "Hpush" in
  let He := fresh "Hentity" in
  let Hr := fresh "Hrun" in
  destruct (push_cases w x) as [[Hs He] | [(Hs & He & ? & ? & Hr) | (Hs & He & ? & ? & Hr)]];
  [ rewrite (process_item_no_handler w x He), ?(failure_message_no_handler w x He)
  | rewrite (process_item_rejected w x _ _ He Hr), ?(failure_message_rejected w x _ _ He Hr)
  | rewrite (process_item_resolved w x _ _ He Hr) ];
  rewrite ?Hs; simpl.

Lemma step_sync_queue (w : World) x :
  sync_queue (db (process_item w x)) =
    if push_succeeds x w
    then filter (fun y => SyncQueueItem.id y ≠ SyncQueueItem.id x) (sync_queue (db w))
    else (fun y => if decide (SyncQueueItem.id y = SyncQueueItem.id x)
                   then SyncQueueItem.apply (record_error (failure_message x w)) y
                   else y) <$> sync_queue (db w).
Proof.
  push_case w x; try reflexivity.
  case_decide; simpl; rewrite ?sync_queue_update_organizations; reflexivity.
Qed.

Lemma step_organizations (w : World) x :
  organizations (db (process_item w x)) =
    if push_succeeds x w && bool_decide (SyncQueueItem.action x ≠ Action.delete)
    then alter (Organization.apply mark_synced) (SyncQueueItem.entityId x)
           (organizations (db w))
    else organizations (db w).
Proof.
  push_case w x; try reflexivity.
  destruct (decide (SyncQueueItem.action x ≠ Action.delete)) as [Ha|Ha].
  - rewrite (bool_decide_eq_true_2 _ Ha); simpl. apply organizations_update.
  - rewrite (bool_decide_eq_false_2 _ Ha); reflexivity.
Qed.

Lemma step_sync_queue_seq (w : World) x :
  sync_queue_seq (db (process_item w x)) = sync_queue_seq (db w).
Proof.
  push_case w x; try reflexivity.
  case_decide; simpl; [|reflexivity].
  unfold OrganizationsTable.update.
  destruct (organizations (db w) !! _); [case_decide |]; reflexivity.
Qed.

Lemma step_isSyncing (w : World) x : isSyncing (process_item w x) = isSyncing w.
Proof. push_case w x; reflexivity. Qed.

Lemma step_onLine (w : World) x : onLine (process_item w x) = onLine w.
Proof. push_case w x; reflexivity. Qed.

Lemma step_net_log (w : World) x :
  net_log (process_item w x) = net_log w ++ sent x w.
Proof.
  unfold sent.
  push_case w x; rewrite ?Hentity; simpl; rewrite ?Hpush; try reflexivity.
  - destruct (SyncQueueItem.entity x); [congruence | | ]; simpl; symmetry; apply app_nil_r.
Qed.

(** ** Rows of the queue across iterations *)

Lemma step_keeps_row (w : World) x y :
  y ∈ sync_queue (db w) ->
  SyncQueueItem.id y ≠ SyncQueueItem.id x ->
  y ∈ sync_queue (db (process_item w x)).
Proof.
  intros Hy Hne. rewrite step_sync_queue. destruct (push_succeeds x w).
  - apply list_elem_of_filter. auto.
  - apply list_elem_of_fmap. exists y. split; [|assumption].
    case_decide; [contradiction | reflexivity].
Qed.

Lemma foldl_keeps_row (l : list SyncQueueItem.t) (w : World) y :
  y ∈ sync_queue (db w) ->
  SyncQueueItem.id y ∉ SyncQueueItem.id <$> l ->
  y ∈ sync_queue (db (foldl process_item w l)).
Proof.
  revert w. induction l as [|x l IH]; intros w Hy Hk; simpl; [assumption|].
  rewrite fmap_cons in Hk. apply not_elem_of_cons in Hk as [Hne Hk].
  apply IH; [|assumption]. apply step_keeps_row; assumption.
Qed.

(** A failed iteration keeps every key; no iteration adds one. *)
Lemma step_queue_keys_failed (w : World) x :
  push_succeeds x w = false ->
  queue_keys (process_item w x) = queue_keys w.
Proof.
  intros Hf. unfold queue_keys. rewrite step_sync_queue, Hf.
  rewrite <- list_fmap_compose. apply list_fmap_ext.
  intros i y _. simpl. case_decide; reflexivity.
Qed.

Lemma step_queue_keys_succeeded (w : World) x :
  push_succeeds x w = true ->
  SyncQueueItem.id x ∉ queue_keys (process_item w x).
Proof.
  intros Hs. unfold queue_keys. rewrite step_sync_queue, Hs.
  intros Hin. apply list_elem_of_fmap in Hin as (y & Hy & Hin).
  apply list_elem_of_filter in Hin as [Hne _]. congruence.
Qed.

Lemma step_queue_keys_subseteq (w : World) x :
  queue_keys (process_item w x) ⊆ queue_keys w.
Proof.
  destruct (push_succeeds x w) eqn:Hs.
  - unfold queue_keys. rewrite step_sync_queue, Hs. intros k Hk.
    apply list_elem_of_fmap in Hk as (y & -> & Hin).
    apply list_elem_of_filter in Hin as [_ Hin].
    apply list_elem_of_fmap_2. assumption.
  - rewrite step_queue_keys_failed by assumption. reflexivity.
Qed.

Lemma foldl_queue_keys_subseteq (l : list SyncQueueItem.t) (w : World) :
  queue_keys (foldl process_item w l) ⊆ queue_keys w.
Proof.
  revert w. induction l as [|x l IH]; intros w; simpl; [reflexivity|].
  etransitivity; [apply IH | apply step_queue_keys_subseteq].
Qed.

Lemma foldl_isSyncing (l : list SyncQueueItem.t) (w : World) :
  isSyncing (foldl process_item w l) = isSyncing w.
Proof.
  revert w. induction l as [|x l IH]; intros w; simpl; [reflexivity|].
  rewrite IH. apply step_isSyncing.
Qed.

Lemma foldl_onLine (l : list SyncQueueItem.t) (w : World) :
  onLine (foldl process_item w l) = onLine w.
Proof.
  revert w. induction l as [|x l IH]; intros w; simpl; [reflexivity|].
  rewrite IH. apply step_onLine.
Qed.

(** ** A whole cycle *)

(** Past the guard, a cycle is the loop over the rows read at its start,
    between the two assignments to [isSyncing] (an empty queue included). *)
Lemma processQueue_idle (w : World) :
  isSyncing w = false -> onLine w = true ->
  processQueue w =
    set_isSyncing false (foldl process_item (set_isSyncing true w) (sync_queue (db w))).
Proof.
  intros Hs Ho. unfold_cycle. rewrite Hs, Ho. simpl.
  unfold SyncQueueTable.toArray; simpl.
  destruct (sync_queue (db w)); reflexivity.
Qed.

Lemma processQueue_blocked (w : World) :
  isSyncing w = true \/ onLine w = false -> processQueue w = w.
Proof.
  intros [H|H]; unfold_cycle; rewrite H; simpl;
    [reflexivity | rewrite orb_true_r; reflexivity].
Qed.

Lemma NoDup_keys_split (l1 l2 : list SyncQueueItem.t) x :
  NoDup (SyncQueueItem.id <$> (l1 ++ x :: l2)) ->
  (SyncQueueItem.id x ∉ SyncQueueItem.id <$> l1) /\
  SyncQueueItem.id x ∉ SyncQueueItem.id <$> l2.
Proof.
  rewrite fmap_app, fmap_cons. intros Hnd.
  apply NoDup_app in Hnd as (_ & Hdisj & Hnd).
  apply NoDup_cons in Hnd as [Hx _]. split; [|assumption].
  intros Hin. apply (Hdisj _ Hin). apply elem_of_cons. left; reflexivity.
Qed.

(** The cycle seen from one of its items: the world in which the iteration
    for [x] starts, and the loop that follows it. *)
Lemma processQueue_split (w : World) l1 x l2 :
  isSyncing w = false -> onLine w = true ->
  sync_queue (db w) = l1 ++ x :: l2 ->
  processQueue w =
    set_isSyncing false
      (foldl process_item
         (process_item (foldl process_item (set_isSyncing true w) l1) x) l2).
Proof.
  intros Hs Ho Hq. rewrite processQueue_idle by assumption.
  rewrite Hq, foldl_app. reflexivity.
Qed.

(** ** The claims about one drain cycle *)

(** C10: when the push of a queue item whose action is [delete] succeeds,
    the iteration sends the delete request, removes from the queue the rows
    with that item's key and no other row, and writes nothing to the Local
    Store: the [organizations] table is the same map as before. *)
Theorem delete_push_leaves_store_untouched (w : World) x :
  SyncQueueItem.action x = Action.delete ->
  push_succeeds x w = true ->
  organizations (db (process_item w x)) = organizations (db w) /\
  sync_queue (db (process_item w x)) =
    filter (fun y => SyncQueueItem.id y ≠ SyncQueueItem.id x) (sync_queue (db w)) /\
  net_log (process_item w x) =
    net_log w ++ [(ApiDelete (SyncQueueItem.entityId x), true)].
Proof.
  intros Ha Hs. split; [|split].
  - rewrite step_organizations, Hs, Ha. reflexivity.
  - rewrite step_sync_queue, Hs. reflexivity.
  - rewrite step_net_log. unfold sent.
    unfold push_succeeds in Hs.
    destruct (entityHandlers organizationAPI (SyncQueueItem.entity x)) eqn:Hh;
      [|discriminate].
    unfold push_succeeds. rewrite Hh, Hs. unfold request. rewrite Ha. reflexivity.
Qed.

(** C9: a queue item whose entity kind has no entry in [entityHandlers]
    does not abort the cycle. Its iteration throws before any request is
    sent, the [catch] block writes the message into the [error] property of
    its row, the loop goes on with the items after it, the row is still in
    the queue when the cycle ends, and [isSyncing] is false again. *)
Theorem unregistered_entity_does_not_abort_cycle (w : World) l1 x l2 :
  SyncQueueItem.entity x ≠ EntityKind.organization ->
  isSyncing w = false -> onLine w = true ->
  NoDup (queue_keys w) ->
  sync_queue (db w) = l1 ++ x :: l2 ->
  let before := foldl process_item (set_isSyncing true w) l1 in
  let caught :=
    set_db (SyncQueueTable.update (SyncQueueItem.id x)
              (record_error undefined_handler_message) (db before)).2 before in
  process_item before x = caught /\
  net_log caught = net_log before /\
  processQueue w = set_isSyncing false (foldl process_item caught l2) /\
  SyncQueueItem.apply (record_error undefined_handler_message) x
    ∈ sync_queue (db (processQueue w)) /\
  isSyncing (processQueue w) = false.
Proof.
  intros He Hs Ho Hnd Hq before caught.
  assert (Hstep : process_item before x = caught)
    by apply process_item_no_handler, He.
  assert (Hcycle : processQueue w = set_isSyncing false (foldl process_item caught l2)).
  { rewrite (processQueue_split w l1 x l2) by assumption.
    fold before. rewrite Hstep. reflexivity. }
  unfold queue_keys in Hnd. rewrite Hq in Hnd.
  apply NoDup_keys_split in Hnd as [Hl1 Hl2].
  split; [assumption|]. split; [reflexivity|]. split; [assumption|].
  split; [|rewrite Hcycle; reflexivity].
  rewrite Hcycle. simpl. apply foldl_keeps_row; [|assumption].
  assert (Hx : x ∈ sync_queue (db before)).
  { apply foldl_keeps_row; [|assumption]. simpl. rewrite Hq.
    apply elem_of_app. right. apply elem_of_cons. left; reflexivity. }
  subst caught. simpl. apply list_elem_of_fmap. exists x. split; [|assumption].
  rewrite decide_True by reflexivity. reflexivity.
Qed.

(** C5: in a drain cycle a row leaves the queue exactly when the remote
    call made for that very item succeeds. If the call of the iteration for
    [x] succeeds, the key of [x] is gone at the end of the cycle and, for a
    [create] or an [update], the iteration has applied
    [{ syncStatus: "synced" }] to the row of the entity; a [delete] leaves
    the Local Store as it was. If the call does not succeed, the key of [x]
    is still in the queue at the end of the cycle and the iteration has not
    written to the Local Store. *)
Theorem item_removed_iff_its_push_succeeded (w : World) l1 x l2 :
  isSyncing w = false -> onLine w = true ->
  NoDup (queue_keys w) ->
  sync_queue (db w) = l1 ++ x :: l2 ->
  let before := foldl process_item (set_isSyncing true w) l1 in
  if push_succeeds x before
  then (SyncQueueItem.id x ∉ queue_keys (processQueue w)) /\
       organizations (db (process_item before x)) =
         (if decide (SyncQueueItem.action x ≠ Action.delete)
          then alter (Organization.apply mark_synced) (SyncQueueItem.entityId x)
                 (organizations (db before))
          else organizations (db before))
  else SyncQueueItem.id x ∈ queue_keys (processQueue w) /\
       organizations (db (process_item before x)) = organizations (db before).
Proof.
  intros Hs Ho Hnd Hq before.
  rewrite (processQueue_split w l1 x l2) by assumption. fold before.
  unfold queue_keys in Hnd. rewrite Hq in Hnd.
  apply NoDup_keys_split in Hnd as [Hl1 Hl2].
  destruct (push_succeeds x before) eqn:Hpush.
  - split.
    + intros Hin. apply (step_queue_keys_succeeded before x Hpush).
      apply (foldl_queue_keys_subseteq l2). exact Hin.
    + rewrite step_organizations, Hpush. simpl.
      destruct (decide (SyncQueueItem.action x ≠ Action.delete)) as [Ha|Ha].
      * rewrite (bool_decide_eq_true_2 _ Ha). reflexivity.
      * rewrite (bool_decide_eq_false_2 _ Ha). reflexivity.
  - split; [|rewrite step_organizations, Hpush; reflexivity].
    assert (Hx : x ∈ sync_queue (db before)).
    { apply foldl_keeps_row; [|assumption]. simpl. rewrite Hq.
      apply elem_of_app. right. apply elem_of_cons. left; reflexivity. }
    assert (Hk : SyncQueueItem.id x ∈ queue_keys (process_item before x)).
    { rewrite step_queue_keys_failed by assumption.
      apply list_elem_of_fmap_2. assumption. }
    apply list_elem_of_fmap in Hk as (y & Hy & Hin).
    unfold queue_keys. simpl. rewrite Hy. apply list_elem_of_fmap_2.
    apply foldl_keeps_row; [assumption | congruence].
Qed.

(** ** The requests of a cycle *)

Lemma sent_calls (w : World) x :
  (sent x w).*1 = if decide (registered x) then [request x] else [].
Proof.
  destruct (decide (registered x)) as [Hr|Hr]; unfold sent; unfold registered in Hr.
  - destruct Hr as [h Hh]. rewrite Hh. reflexivity.
  - destruct (entityHandlers organizationAPI (SyncQueueItem.entity x));
      [exfalso; apply Hr; eauto | reflexivity].
Qed.

Lemma foldl_net_log_calls (l : list SyncQueueItem.t) (w : World) :
  (net_log (foldl process_item w l)).*1 =
    (net_log w).*1 ++ (request <$> filter registered l).
Proof.
  revert w. induction l as [|x l IH]; intros w; simpl.
  - symmetry; apply app_nil_r.
  - rewrite IH, step_net_log, fmap_app, sent_calls, filter_cons.
    destruct (decide (registered x)); simpl.
    + rewrite <- app_assoc. reflexivity.
    + rewrite app_nil_r. reflexivity.
Qed.

Lemma registered_organization x :
  SyncQueueItem.entity x = EntityKind.organization -> registered x.
Proof. intros He. unfold registered. rewrite He. simpl. eauto. Qed.

(** C2, as the code has it: a drain cycle sends one request for each queue
    item that has a handler, in the order of the queue, which is the order
    of enqueueing. For a [create] enqueued before an [update] the create
    request is therefore always sent before the update request; the update
    request is sent whatever the outcome of the create was. *)
Theorem requests_follow_enqueue_order (w : World) l1 c l2 u l3 :
  isSyncing w = false -> onLine w = true ->
  sync_queue (db w) = l1 ++ c :: l2 ++ u :: l3 ->
  SyncQueueItem.entity c = EntityKind.organization ->
  SyncQueueItem.entity u = EntityKind.organization ->
  (net_log (processQueue w)).*1 =
    (net_log w).*1
      ++ (request <$> filter registered l1)
      ++ request c :: (request <$> filter registered l2)
      ++ request u :: (request <$> filter registered l3).
Proof.
  intros Hs Ho Hq Hc Hu. rewrite processQueue_idle by assumption. simpl.
  rewrite foldl_net_log_calls, Hq. simpl. f_equal.
  rewrite filter_app, filter_cons_True by (apply registered_organization, Hc).
  rewrite filter_app, filter_cons_True by (apply registered_organization, Hu).
  rewrite fmap_app, fmap_cons, fmap_app, fmap_cons. reflexivity.
Qed.

(** ** Failed pushes *)

Lemma push_succeeds_rejecting (w : World) x :
  always_rejects -> push_succeeds x w = false.
Proof.
  intros Hrej. unfold push_succeeds.
  destruct (SyncQueueItem.entity x); simpl; [apply Hrej | reflexivity | reflexivity].
Qed.

Lemma step_failed_rows (w : World) x :
  push_succeeds x w = false ->
  without_error <$> sync_queue (db (process_item w x)) =
    without_error <$> sync_queue (db w).
Proof.
  intros Hf. rewrite step_sync_queue, Hf.
  rewrite <- list_fmap_compose. apply list_fmap_ext.
  intros i y _. simpl. case_decide; reflexivity.
Qed.

Lemma step_failed_error (w : World) x y :
  push_succeeds x w = false ->
  y ∈ sync_queue (db (process_item w x)) ->
  SyncQueueItem.id y = SyncQueueItem.id x ->
  SyncQueueItem.error y = Some (failure_message x w).
Proof.
  intros Hf Hy Hk. rewrite step_sync_queue, Hf in Hy.
  apply list_elem_of_fmap in Hy as (y0 & -> & _).
  destruct (decide (SyncQueueItem.id y0 = SyncQueueItem.id x)) as [|Hne].
  - reflexivity.
  - contradiction.
Qed.

Lemma step_failed_row_origin (w : World) x y :
  push_succeeds x w = false ->
  y ∈ sync_queue (db (process_item w x)) ->
  SyncQueueItem.id y ≠ SyncQueueItem.id x ->
  y ∈ sync_queue (db w).
Proof.
  intros Hf Hy Hk. rewrite step_sync_queue, Hf in Hy.
  apply list_elem_of_fmap in Hy as (y0 & -> & Hin).
  destruct (decide (SyncQueueItem.id y0 = SyncQueueItem.id x)) as [He|Hne].
  - simpl in Hk. contradiction.
  - assumption.
Qed.

Section Rejecting.
Hypothesis rejecting : always_rejects.

Lemma foldl_rejected_rows (l : list SyncQueueItem.t) (w : World) :
  without_error <$> sync_queue (db (foldl process_item w l)) =
    without_error <$> sync_queue (db w).
Proof.
  revert w. induction l as [|x l IH]; intros w; simpl; [reflexivity|].
  rewrite IH. apply step_failed_rows, push_succeeds_rejecting, rejecting.
Qed.

Lemma foldl_rejected_organizations (l : list SyncQueueItem.t) (w : World) :
  organizations (db (foldl process_item w l)) = organizations (db w).
Proof.
  revert w. induction l as [|x l IH]; intros w; simpl; [reflexivity|].
  rewrite IH, step_organizations, push_succeeds_rejecting by exact rejecting.
  reflexivity.
Qed.

Lemma foldl_rejected_errors (l : list SyncQueueItem.t) (w : World) y :
  y ∈ sync_queue (db (foldl process_item w l)) ->
  SyncQueueItem.id y ∈ SyncQueueItem.id <$> l ->
  is_Some (SyncQueueItem.error y).
Proof.
  induction l as [|x l IH] using rev_ind; intros Hy Hk.
  - apply elem_of_nil in Hk. contradiction.
  - rewrite foldl_app in Hy. simpl in Hy.
    pose proof (push_succeeds_rejecting (foldl process_item w l) x rejecting) as Hf.
    destruct (decide (SyncQueueItem.id y = SyncQueueItem.id x)) as [He|Hne].
    + rewrite (step_failed_error _ _ _ Hf Hy He). eauto.
    + apply IH.
      * eapply step_failed_row_origin; eassumption.
      * rewrite fmap_app in Hk. apply elem_of_app in Hk as [Hk|Hk]; [assumption|].
        simpl in Hk. apply list_elem_of_singleton in Hk. contradiction.
Qed.

End Rejecting.

Lemma same_rows_keys (q q' : list SyncQueueItem.t) :
  without_error <$> q = without_error <$> q' ->
  SyncQueueItem.id <$> q = SyncQueueItem.id <$> q'.
Proof.
  intros H.
  change (SyncQueueItem.id <$> q) with ((SyncQueueItem.id ∘ without_error) <$> q).
  change (SyncQueueItem.id <$> q') with ((SyncQueueItem.id ∘ without_error) <$> q').
  rewrite !list_fmap_compose, H. reflexivity.
Qed.

Lemma same_rows_retries (q q' : list SyncQueueItem.t) :
  without_error <$> q = without_error <$> q' ->
  SyncQueueItem.retries <$> q = SyncQueueItem.retries <$> q'.
Proof.
  intros H.
  change (SyncQueueItem.retries <$> q)
    with ((SyncQueueItem.retries ∘ without_error) <$> q).
  change (SyncQueueItem.retries <$> q')
    with ((SyncQueueItem.retries ∘ without_error) <$> q').
  rewrite !list_fmap_compose, H. reflexivity.
Qed.

Lemma same_rows_registered (q q' : list SyncQueueItem.t) :
  without_error <$> q = without_error <$> q' ->
  length (filter registered q) = length (filter registered q').
Proof.
  revert q'. induction q as [|a q IH]; intros [|b q'] H; try discriminate; [reflexivity|].
  rewrite !fmap_cons in H.
  assert (Hab : without_error a = without_error b) by congruence.
  assert (Hq : without_error <$> q = without_error <$> q') by congruence.
  assert (Hr : registered a <-> registered b).
  { unfold registered.
    replace (SyncQueueItem.entity a) with (SyncQueueItem.entity (without_error a))
      by reflexivity.
    rewrite Hab. reflexivity. }
  rewrite !filter_cons.
  destruct (decide (registered a)), (decide (registered b)); try tauto;
    simpl; rewrite (IH q' Hq); reflexivity.
Qed.

Lemma cycle_rejected (w : World) :
  always_rejects ->
  isSyncing w = false -> onLine w = true ->
  organizations (db (processQueue w)) = organizations (db w) /\
  without_error <$> sync_queue (db (processQueue w)) =
    without_error <$> sync_queue (db w) /\
  (forall y, y ∈ sync_queue (db (processQueue w)) -> is_Some (SyncQueueItem.error y)) /\
  length (net_log (processQueue w)) =
    length (net_log w) + length (filter registered (sync_queue (db w))) /\
  isSyncing (processQueue w) = false /\
  onLine (processQueue w) = onLine w.
Proof.
  intros Hrej Hs Ho. rewrite processQueue_idle by assumption. simpl.
  pose proof (foldl_rejected_rows Hrej (sync_queue (db w)) (set_isSyncing true w))
    as Hrows. simpl in Hrows.
  split; [exact (foldl_rejected_organizations Hrej (sync_queue (db w))
                   (set_isSyncing true w))|].
  split; [exact Hrows|].
  split; [|split; [|split; [reflexivity|]]].
  - intros y Hy. apply (foldl_rejected_errors Hrej _ _ _ Hy).
    rewrite <- (same_rows_keys _ _ Hrows). apply list_elem_of_fmap_2, Hy.
  - pose proof (foldl_net_log_calls (sync_queue (db w)) (set_isSyncing true w)) as Hlog.
    apply (f_equal length) in Hlog.
    rewrite length_app, !length_fmap in Hlog. exact Hlog.
  - rewrite foldl_onLine. reflexivity.
Qed.


(** ** The status invariant *)

Lemma NoDup_fmap_eq {A B} (f : A -> B) (l : list A) a b :
  NoDup (f <$> l) -> a ∈ l -> b ∈ l -> f a = f b -> a = b.
Proof.
  induction l as [|c l IH]; intros Hnd Ha Hb Hf.
  - apply elem_of_nil in Ha. contradiction.
  - rewrite fmap_cons in Hnd. apply NoDup_cons in Hnd as [Hc Hnd].
    apply elem_of_cons in Ha as [->|Ha]; apply elem_of_cons in Hb as [->|Hb].
    + reflexivity.
    + exfalso. apply Hc. rewrite Hf. apply list_elem_of_fmap_2, Hb.
    + exfalso. apply Hc. rewrite <- Hf. apply list_elem_of_fmap_2, Ha.
    + apply IH; assumption.
Qed.

Lemma push_succeeds_registered (w : World) x :
  push_succeeds x w = true -> SyncQueueItem.entity x = EntityKind.organization.
Proof.
  unfold push_succeeds. destruct (SyncQueueItem.entity x); simpl; congruence.
Qed.

Lemma step_row_source (w : World) x y :
  y ∈ sync_queue (db (process_item w x)) ->
  exists y0, y0 ∈ sync_queue (db w) /\ same_item y y0 /\
    (push_succeeds x w = true -> SyncQueueItem.id y0 ≠ SyncQueueItem.id x).
Proof.
  rewrite step_sync_queue. destruct (push_succeeds x w); intros Hy.
  - apply list_elem_of_filter in Hy as [Hne Hy].
    exists y. unfold same_item. auto.
  - apply list_elem_of_fmap in Hy as (y0 & -> & Hy0).
    exists y0. split; [assumption|]. split; [|discriminate].
    unfold same_item. case_decide; auto.
Qed.

Section OneItemPerEntity.
Variable snapshot : list SyncQueueItem.t.
Hypothesis single : one_item_per_entity snapshot.

(** What the loop maintains: the rows come from the snapshot, and the status
    invariant holds. *)
Definition loop_invariant (w : World) : Prop :=
  (forall y, y ∈ sync_queue (db w) -> exists y0, y0 ∈ snapshot /\ same_item y y0) /\
  status_consistent w.

Lemma step_loop_invariant (w : World) x :
  x ∈ snapshot -> loop_invariant w -> loop_invariant (process_item w x).
Proof.
  intros Hx [Hrows Hst]. split.
  - intros y Hy. apply step_row_source in Hy as (y0 & Hy0 & (Hi & He & Hp) & _).
    destruct (Hrows y0 Hy0) as (y1 & Hy1 & Hi1 & He1 & Hp1).
    exists y1. unfold same_item. split; [assumption|].
    repeat split; congruence.
  - intros y o Hy Hent Hlook.
    apply step_row_source in Hy as (y0 & Hy0 & (Hi & He & Hp) & Hgone).
    assert (Hid : SyncQueueItem.entityId y = SyncQueueItem.entityId y0)
      by (unfold SyncQueueItem.entityId; congruence).
    rewrite Hid in Hlook. rewrite He in Hent.
    rewrite step_organizations in Hlook.
    destruct (push_succeeds x w) eqn:Hpush; simpl in Hlook;
      [|exact (Hst y0 o Hy0 Hent Hlook)].
    destruct (bool_decide (SyncQueueItem.action x ≠ Action.delete));
      [|exact (Hst y0 o Hy0 Hent Hlook)].
    destruct (decide (SyncQueueItem.entityId x = SyncQueueItem.entityId y0)) as [Heq|Hne].
    + exfalso. apply (Hgone eq_refl).
      destruct (Hrows y0 Hy0) as (y1 & Hy1 & Hi1 & He1 & Hp1).
      assert (y1 = x); [|congruence].
      apply (NoDup_fmap_eq SyncQueueItem.entityId (filter registered snapshot));
        [exact single | | |].
      * apply list_elem_of_filter. split; [|assumption].
        apply registered_organization. congruence.
      * apply list_elem_of_filter. split; [|assumption].
        apply registered_organization, (push_succeeds_registered w), Hpush.
      * unfold SyncQueueItem.entityId in *. congruence.
    + rewrite lookup_alter_ne in Hlook by assumption.
      exact (Hst y0 o Hy0 Hent Hlook).
Qed.

Lemma foldl_loop_invariant (l : list SyncQueueItem.t) (w : World) :
  (forall x, x ∈ l -> x ∈ snapshot) ->
  loop_invariant w -> loop_invariant (foldl process_item w l).
Proof.
  revert w. induction l as [|x l IH]; intros w Hl Hinv; simpl; [assumption|].
  apply IH.
  - intros y Hy. apply Hl, elem_of_cons. right; assumption.
  - apply step_loop_invariant; [|assumption]. apply Hl, elem_of_cons. left; reflexivity.
Qed.

End OneItemPerEntity.

(** C1, as the code has it: if the queue holds at most one item per entity
    when a drain cycle starts and every organization with a queue item is
    [pending] or [error], the same is true when the cycle ends. The premise
    on the queue cannot be dropped: a successful push of a [create] or an
    [update] applies [{ syncStatus: "synced" }] to the row of the entity
    whatever else the queue holds. *)
Theorem cycle_keeps_status_invariant (w : World) :
  isSyncing w = false -> onLine w = true ->
  one_item_per_entity (sync_queue (db w)) ->
  status_consistent w ->
  status_consistent (processQueue w) /\
  (forall x w',
     push_succeeds x w' = true ->
     SyncQueueItem.action x ≠ Action.delete ->
     organizations (db (process_item w' x)) =
       alter (Organization.apply mark_synced) (SyncQueueItem.entityId x)
         (organizations (db w'))).
Proof.
  intros Hs Ho Hone Hst. split.
  - rewrite processQueue_idle by assumption.
    assert (Hinv : loop_invariant (sync_queue (db w))
                     (foldl process_item (set_isSyncing true w) (sync_queue (db w)))).
    { apply foldl_loop_invariant; [assumption | auto |]. split.
      - intros y Hy. exists y. unfold same_item. auto.
      - exact Hst. }
    exact (proj2 Hinv).
  - intros x w' Hpush Ha.
    rewrite step_organizations, Hpush, (bool_decide_eq_true_2 _ Ha). reflexivity.
Qed.

(** ** The re-entrancy guard *)

(** While [isSyncing] is set exactly one call is suspended, and none
    otherwise. *)
Lemma reachable_cycles (s : System Remote) :
  reachable organizationAPI s ->
  length (cycles s) = if isSyncing (world s) then 1 else 0.
Proof.
  induction 1 as [s (Hs & Hc & _) | s s' Hreach IH Hstep].
  - rewrite Hs, Hc. reflexivity.
  - destruct Hstep as [s | s i c Hi | s b | s uuid now name | s i newOrg Hi]; simpl.
    + unfold trigger. destruct (isSyncing (world s)) eqn:Hs; simpl.
      * rewrite Hs. assumption.
      * destruct (onLine (world s)); simpl; [|rewrite Hs; assumption].
        rewrite length_app, IH. reflexivity.
    + destruct (isSyncing (world s)) eqn:Hs.
      2:{ destruct (cycles s); [|discriminate]. discriminate. }
      destruct (cycles s) as [|c0 [|c1 rest]] eqn:Hc; try discriminate.
      destruct i as [|i]; [|discriminate]. simpl in Hi. injection Hi as ->.
      unfold resume. rewrite Hc.
      destruct c as [|[|x [|x' rest]]]; simpl; try reflexivity.
      * case_decide; simpl; [reflexivity | rewrite Hs; reflexivity].
      * rewrite step_isSyncing, Hs. reflexivity.
    + assumption.
    + unfold mutationFn, on_db. simpl.
      destruct (OrganizationsTable.add _ (db (world s))) as [[k|m] d]; assumption.
    + assumption.
Qed.

(** C7: at any moment of any run of the application at most one
    [processQueue] call is past its guard, whatever the order in which the
    timer, the "online" listener, the suspended calls and the user's
    mutations take their turns. A call made while [isSyncing] is set or the
    browser is offline returns at the guard: no call is suspended for it, so
    it never reads the queue or sends a request, and the world is left as it
    was. *)
Theorem at_most_one_drain_cycle (s : System Remote) :
  reachable organizationAPI s ->
  length (cycles s) <= 1 /\
  (isSyncing (world s) = true \/ onLine (world s) = false ->
   trigger s = s /\ processQueue (world s) = world s).
Proof.
  intros Hreach. split.
  - rewrite (reachable_cycles s Hreach). destruct (isSyncing (world s)); lia.
  - intros Hblocked. split; [|apply processQueue_blocked, Hblocked].
    unfold trigger. destruct Hblocked as [H|H]; rewrite H; simpl;
      [reflexivity | rewrite orb_true_r; reflexivity].
Qed.

(** Left alone, a call that passes the guard runs to the result of
    [processQueue]: the two descriptions of the cycle agree. *)
Lemma pushing_steps (l : list SyncQueueItem.t) (w : World) cbs :
  l ≠ [] ->
  rtc (step organizationAPI)
    (mkSystem w [Pushing l] cbs)
    (mkSystem (set_isSyncing false (foldl process_item w l)) [] cbs).
Proof.
  revert w. induction l as [|x l IH]; intros w Hne; [congruence|].
  eapply rtc_l.
  { apply (step_resume organizationAPI _ 0 (Pushing (x :: l))). reflexivity. }
  unfold resume; simpl. destruct l as [|x' l]; simpl.
  - apply rtc_refl.
  - apply (IH (process_item w x)). discriminate.
Qed.

Lemma processQueue_as_steps (w : World) cbs :
  rtc (step organizationAPI) (mkSystem w [] cbs) (mkSystem (processQueue w) [] cbs).
Proof.
  destruct (isSyncing w || negb (onLine w)) eqn:Hguard.
  - unfold_cycle. rewrite Hguard. apply rtc_refl.
  - eapply rtc_l; [apply step_trigger|].
    unfold trigger; unfold_cycle; simpl. rewrite Hguard; simpl.
    eapply rtc_l.
    { apply (step_resume organizationAPI _ 0 AwaitingQueue). reflexivity. }
    unfold resume, SyncQueueTable.toArray; simpl.
    destruct (decide (length (sync_queue (db w)) = 0)) as [Hz|Hnz]; simpl.
    + apply rtc_refl.
    + apply pushing_steps. intros Hq. rewrite Hq in Hnz. apply Hnz. reflexivity.
Qed.

(** ** Keys of the queue *)

Lemma empty_db_wf : queue_wf empty_db.
Proof.
  split; [apply NoDup_nil_2|]. intros x Hx. apply elem_of_nil in Hx. contradiction.
Qed.

Lemma add_queue_wf (d : AppDatabase) x :
  queue_wf d -> queue_wf (SyncQueueTable.add x d).2.
Proof.
  intros [Hnd Hb]. split; simpl.
  - rewrite fmap_app. apply NoDup_app. split; [assumption|]. split.
    + intros k Hk Hin. apply list_elem_of_singleton in Hin. subst k.
      apply list_elem_of_fmap in Hk as (y & Hy & Hin).
      destruct (Hb y Hin) as (k & Hk & Hle). simpl in Hy. rewrite Hk in Hy.
      injection Hy as Hy. lia.
    + apply NoDup_singleton.
  - intros y Hy. apply elem_of_app in Hy as [Hy|Hy].
    + destruct (Hb y Hy) as (k & Hk & Hle). exists k. split; [assumption | lia].
    + apply list_elem_of_singleton in Hy. subst y.
      exists (S (sync_queue_seq d)). split; [reflexivity | lia].
Qed.

Lemma step_queue_wf (w : World) x :
  queue_wf (db w) -> queue_wf (db (process_item w x)).
Proof.
  intros [Hnd Hb]. split.
  - destruct (push_succeeds x w) eqn:Hpush.
    + rewrite step_sync_queue, Hpush.
      apply (sublist_NoDup _ (SyncQueueItem.id <$> sync_queue (db w)));
        [assumption|]. apply fmap_sublist, sublist_filter.
    + pose proof (step_queue_keys_failed w x Hpush) as Hk.
      unfold queue_keys in Hk. rewrite Hk. assumption.
  - intros y Hy. rewrite step_sync_queue_seq.
    apply step_row_source in Hy as (y0 & Hy0 & (Hi & _) & _).
    rewrite Hi. apply Hb, Hy0.
Qed.

(** Every step of the application keeps the keys of the queue unique. *)
Lemma system_step_queue_wf (s s' : System Remote) :
  step organizationAPI s s' ->
  queue_wf (db (world s)) -> queue_wf (db (world s')).
Proof.
  intros Hstep Hwf.
  destruct Hstep as [s | s i c Hi | s b | s uuid now name | s i newOrg Hi]; simpl.
  - unfold trigger. destruct (isSyncing (world s) || negb (onLine (world s))); exact Hwf.
  - unfold resume. destruct c as [|[|x [|x' rest]]]; simpl;
      try case_decide; simpl; try exact Hwf; apply step_queue_wf, Hwf.
  - exact Hwf.
  - destruct (organizations (db (world s)) !! uuid) eqn:Hk.
    + rewrite (mutationFn_taken _ uuid now name _ Hk). exact Hwf.
    + rewrite (mutationFn_fresh _ uuid now name Hk). exact Hwf.
  - exact (add_queue_wf (db (world s)) _ Hwf).
Qed.

Lemma run_queue_wf (s s' : System Remote) :
  rtc (step organizationAPI) s s' ->
  queue_wf (db (world s)) -> NoDup (queue_keys (world s')).
Proof.
  intros Hrun Hwf. cut (queue_wf (db (world s'))); [intros [H _]; exact H|].
  induction Hrun as [|s s1 s' Hstep _ IH]; [assumption|].
  apply IH, (system_step_queue_wf s s1); assumption.
Qed.

End Properties.

(** ** The repository and the mutation hook *)

Section RepositoryProperties.
Context {Remote : Type}.

Local Abbreviation World := (World Remote).

(** The methods of [organizationRepository] are the table operations and
    nothing more: none of them touches the queue. *)
Lemma repository_leaves_queue (d : AppDatabase) org id changes :
  sync_queue (Repository.add organizationRepository org d).2 = sync_queue d /\
  sync_queue (Repository.update organizationRepository id changes d).2 = sync_queue d /\
  sync_queue (Repository.delete organizationRepository id d).2 = sync_queue d.
Proof.
  simpl. split; [|split].
  - unfold OrganizationsTable.add.
    destruct (organizations d !! Organization.id org); reflexivity.
  - unfold OrganizationsTable.update.
    destruct (organizations d !! id); [case_decide|]; reflexivity.
  - reflexivity.
Qed.

(** C6, as the code has it: [update] of an id that is not in the Local Store
    does not fail, it resolves with 0 (no row modified), and [delete] of an
    absent id resolves as well; both leave the Local Store and the Sync
    Queue as they were. *)
Theorem update_delete_of_unknown_id_resolve (d : AppDatabase) id changes :
  organizations d !! id = None ->
  Repository.update organizationRepository id changes d = (Resolved 0, d) /\
  Repository.delete organizationRepository id d = (Resolved tt, d).
Proof.
  intros Hnone. simpl. split.
  - unfold OrganizationsTable.update. rewrite Hnone. reflexivity.
  - unfold OrganizationsTable.delete, set_organizations.
    rewrite (delete_id _ _ Hnone). destruct d; reflexivity.
Qed.

(** C3, as the code has it: [useAddOrganization] writes the Local Store in
    [mutationFn] and enqueues in [onSuccess], two operations one after the
    other and not one unit. When the write is rejected nothing is enqueued
    and the world is unchanged; when it resolves, the row is in the store
    once [mutationFn] is done and the queue is still as it was, and only
    [onSuccess] appends the one [create] item, under the next key. The
    methods of the repository themselves leave the queue alone. *)
Theorem useAddOrganization_writes_then_enqueues (w : World) uuid now name id changes :
  let newOrg := Organization.mk uuid name SyncStatus.pending now in
  let stored := set_organizations (<[uuid := newOrg]> (organizations (db w))) (db w) in
  match organizations (db w) !! uuid with
  | Some _ =>
      useAddOrganization uuid now name w = (Rejected "ConstraintError", w)
  | None =>
      mutationFn uuid now name w = (Resolved newOrg, set_db stored w) /\
      useAddOrganization uuid now name w =
        (Resolved newOrg,
         set_db (mkDb (organizations stored)
                   (sync_queue (db w) ++
                      [SyncQueueTable.with_key (S (sync_queue_seq (db w)))
                         (SyncQueueItem.literal EntityKind.organization
                            Action.create newOrg)])
                   (S (sync_queue_seq (db w)))) w)
  end /\
  sync_queue (Repository.add organizationRepository newOrg (db w)).2
    = sync_queue (db w) /\
  sync_queue (Repository.update organizationRepository id changes (db w)).2
    = sync_queue (db w) /\
  sync_queue (Repository.delete organizationRepository id (db w)).2
    = sync_queue (db w).
Proof.
  intros newOrg stored. split; [|apply repository_leaves_queue].
  unfold useAddOrganization.
  destruct (organizations (db w) !! uuid) eqn:Hk.
  - rewrite (mutationFn_taken w uuid now name _ Hk). reflexivity.
  - rewrite (mutationFn_fresh w uuid now name Hk). split; reflexivity.
Qed.

(** C8: when the generated id is new to the Local Store,
    [useAddOrganization] resolves with the input extended with that id,
    status [pending] and the timestamp taken at the call; a read of the
    Local Store, straight after [mutationFn] or after the whole mutation,
    finds exactly that entity under the id; and the mutation sends no
    request: the server and the record of requests are as before. *)
Theorem create_then_read_round_trip (w : World) uuid now name :
  organizations (db w) !! uuid = None ->
  let newOrg := Organization.mk uuid name SyncStatus.pending now in
  (mutationFn uuid now name w).1 = Resolved newOrg /\
  organizations (db (mutationFn uuid now name w).2) !! uuid = Some newOrg /\
  (useAddOrganization uuid now name w).1 = Resolved newOrg /\
  organizations (db (useAddOrganization uuid now name w).2) !! uuid = Some newOrg /\
  newOrg ∈ useOrganizations (useAddOrganization uuid now name w).2 /\
  net_log (useAddOrganization uuid now name w).2 = net_log w /\
  remote (useAddOrganization uuid now name w).2 = remote w.
Proof.
  intros Hfresh newOrg. unfold useAddOrganization.
  rewrite (mutationFn_fresh w uuid now name Hfresh). fold newOrg. simpl.
  repeat split; try apply lookup_insert_eq.
  unfold useOrganizations; simpl. unfold OrganizationsTable.toArray; simpl.
  apply list_elem_of_fmap. exists (uuid, newOrg). split; [reflexivity|].
  apply elem_of_map_to_list, lookup_insert_eq.
Qed.

End RepositoryProperties.

(** * Worked examples *)

Definition create_acme : SyncQueueItem.t :=
  queued 1 EntityKind.organization Action.create acme.

Definition update_acme : SyncQueueItem.t :=
  queued 2 EntityKind.organization Action.update acme_renamed.

Definition delete_acme : SyncQueueItem.t :=
  queued 1 EntityKind.organization Action.delete acme.

Definition create_user : SyncQueueItem.t :=
  queued 1 EntityKind.user Action.create acme.

(** "Acme" was created and then renamed while offline: the store has the
    renamed row and the queue has the [create] followed by the [update]. The
    server accepts the first request and fails the second. *)
Definition renamed_offline (script : list bool) : World (list bool) :=
  idle [acme_renamed] [create_acme; update_acme] script.

(** One organization waiting for its [create] to be pushed. *)
Definition one_pending {Remote} (r : Remote) : World Remote :=
  idle [acme] [create_acme] r.

Lemma one_pending_consistent {Remote} (r : Remote) : status_consistent (one_pending r).
Proof.
  intros x o Hx _ Hlook. apply list_elem_of_singleton in Hx. subst x.
  vm_compute in Hlook. injection Hlook as <-. left. reflexivity.
Defined.

Lemma renamed_offline_consistent script : status_consistent (renamed_offline script).
Proof.
  intros x o Hx _ Hlook.
  apply elem_of_cons in Hx as [->|Hx]; [|apply list_elem_of_singleton in Hx; subst x];
    vm_compute in Hlook; injection Hlook as <-; left; reflexivity.
Defined.

Lemma offline_api_rejects : always_rejects offline_api.
Proof. intros c r. destruct c; reflexivity. Defined.

(** C1 fails on the code: after a cycle in which the [create] of "org-1" is
    accepted and its [update] fails, the [update] item is still queued and
    the organization is [synced]; the invariant held before the cycle and
    does not hold after it. Already the first iteration writes [synced]
    while the newer item is in the queue. *)
Lemma synced_with_outstanding_update :
  let w := renamed_offline [true; false] in
  status_consistent w /\
  sync_queue (db (process_item scripted_api w create_acme)) = [update_acme] /\
  Organization.syncStatus <$>
    organizations (db (process_item scripted_api w create_acme)) !! "org-1"
    = Some SyncStatus.synced /\
  sync_queue (db (processQueue scripted_api w)) =
    [SyncQueueItem.mk (Some 2) EntityKind.organization Action.update acme_renamed
       None (Some "Network Error")] /\
  Organization.syncStatus <$> organizations (db (processQueue scripted_api w)) !! "org-1"
    = Some SyncStatus.synced /\
  ~ status_consistent (processQueue scripted_api w).
Proof.
  split; [apply renamed_offline_consistent|].
  repeat (split; [vm_compute; reflexivity|]).
  intros Hst.
  destruct (Hst (SyncQueueItem.mk (Some 2) EntityKind.organization Action.update
                   acme_renamed None (Some "Network Error"))
                (Organization.mk "org-1" "Acme Ltd" SyncStatus.synced
                   "2025-01-02T00:00:00.000Z"))
    as [H|H]; try discriminate H; try reflexivity.
  vm_compute. apply list_elem_of_singleton. reflexivity.
Qed.

Lemma cycle_keeps_status_invariant_witness :
  isSyncing (one_pending [true]) = false /\
  onLine (one_pending [true]) = true /\
  one_item_per_entity scripted_api (sync_queue (db (one_pending [true]))) /\
  status_consistent (one_pending [true]) /\
  status_consistent (processQueue scripted_api (one_pending [true])) /\
  organizations (db (process_item scripted_api (one_pending [true]) create_acme)) =
    alter (Organization.apply mark_synced) "org-1"
      (organizations (db (one_pending [true]))).
Proof.
  assert (Hone : one_item_per_entity scripted_api (sync_queue (db (one_pending [true])))).
  { apply (bool_decide_unpack _). vm_compute. exact I. }
  split; [reflexivity|]. split; [reflexivity|]. split; [exact Hone|].
  split; [apply one_pending_consistent|].
  destruct (cycle_keeps_status_invariant scripted_api (one_pending [true])
              eq_refl eq_refl Hone (one_pending_consistent [true])) as [Hinv Hsync].
  split; [exact Hinv|].
  apply (Hsync create_acme (one_pending [true])); [reflexivity | discriminate].
Defined.

(** C2 fails on the code: the [create] of "org-1" fails and the [update] of
    the same entity is sent, and accepted, in the same cycle; the failed
    [create] stays behind in the queue. *)
Lemma update_sent_after_failed_create :
  let w := renamed_offline [false; true] in
  net_log (processQueue scripted_api w) =
    [(ApiCreate acme, false); (ApiUpdate "org-1" acme_renamed, true)] /\
  sync_queue (db (processQueue scripted_api w)) =
    [SyncQueueItem.mk (Some 1) EntityKind.organization Action.create acme
       None (Some "Network Error")].
Proof. split; vm_compute; reflexivity. Qed.

Lemma requests_follow_enqueue_order_witness :
  let w := renamed_offline [false; true] in
  isSyncing w = false /\ onLine w = true /\
  sync_queue (db w) = [] ++ create_acme :: [] ++ update_acme :: [] /\
  SyncQueueItem.entity create_acme = EntityKind.organization /\
  SyncQueueItem.entity update_acme = EntityKind.organization /\
  (net_log (processQueue scripted_api w)).*1 =
    (net_log w).*1
      ++ (request <$> filter (registered scripted_api) [])
      ++ request create_acme :: (request <$> filter (registered scripted_api) [])
      ++ request update_acme :: (request <$> filter (registered scripted_api) []).
Proof.
  repeat (split; [reflexivity|]).
  apply (requests_follow_enqueue_order scripted_api (renamed_offline [false; true])
           [] create_acme [] update_acme []); reflexivity.
Defined.

(** C3 fails on the code: once [mutationFn] has resolved and before
    [onSuccess] runs, the application is in a state where the new row is in
    the Local Store and the queue has no item for it; and the repository's
    own [update] changes a row without any enqueue. *)
Lemma store_write_visible_without_queue_item :
  let s0 : System unit := mkSystem (idle [] [] tt) [] [] in
  let s1 : System unit :=
    mkSystem (mutationFn "org-1" "2025-01-01T00:00:00.000Z" "Acme" (world s0)).2
             [] [acme] in
  let d := (Repository.update organizationRepository "org-1"
              (Organization.changes (Some "Acme Ltd") None None)
              (db (world s1))).2 in
  reachable offline_api s1 /\
  organizations (db (world s1)) !! "org-1" = Some acme /\
  sync_queue (db (world s1)) = [] /\
  organizations d !! "org-1" =
    Some (Organization.mk "org-1" "Acme Ltd" SyncStatus.pending
            "2025-01-01T00:00:00.000Z") /\
  sync_queue d = [].
Proof.
  split; [|repeat split; vm_compute; reflexivity].
  apply (reachable_step offline_api (mkSystem (idle [] [] tt) [] [])).
  - apply reachable_initial. repeat split; reflexivity.
  - exact (step_mutationFn offline_api (mkSystem (idle [] [] tt) [] [])
             "org-1" "2025-01-01T00:00:00.000Z" "Acme").
Qed.



(** C6 fails on the code: [update] and [delete] of an id the Local Store
    does not have resolve; neither is rejected. *)
Lemma unknown_id_is_not_an_error :
  Repository.update organizationRepository "org-9"
    (Organization.changes (Some "Nobody") None None) empty_db = (Resolved 0, empty_db) /\
  Repository.delete organizationRepository "org-9" empty_db = (Resolved tt, empty_db) /\
  is_rejected (Repository.update organizationRepository "org-9"
                 (Organization.changes (Some "Nobody") None None) empty_db).1 = false /\
  is_rejected (Repository.delete organizationRepository "org-9" empty_db).1 = false.
Proof. repeat split; vm_compute; reflexivity. Qed.

Lemma update_delete_of_unknown_id_resolve_witness :
  organizations empty_db !! "org-9" = None /\
  Repository.update organizationRepository "org-9" Organization.no_changes empty_db
    = (Resolved 0, empty_db) /\
  Repository.delete organizationRepository "org-9" empty_db = (Resolved tt, empty_db).
Proof.
  split; [reflexivity|].
  apply (update_delete_of_unknown_id_resolve empty_db "org-9" Organization.no_changes).
  reflexivity.
Defined.

Lemma item_removed_iff_its_push_succeeded_witness :
  let w := renamed_offline [true; false] in
  let before := foldl (process_item scripted_api) (set_isSyncing true w) [] in
  isSyncing w = false /\ onLine w = true /\
  NoDup (queue_keys w) /\
  sync_queue (db w) = [] ++ create_acme :: [update_acme] /\
  push_succeeds scripted_api create_acme before = true /\
  (SyncQueueItem.id create_acme ∉ queue_keys (processQueue scripted_api w)) /\
  organizations (db (process_item scripted_api before create_acme)) =
    alter (Organization.apply mark_synced) "org-1" (organizations (db before)).
Proof.
  assert (Hnd : NoDup (queue_keys (renamed_offline [true; false]))).
  { apply (bool_decide_unpack _). vm_compute. exact I. }
  split; [reflexivity|]. split; [reflexivity|]. split; [exact Hnd|].
  split; [reflexivity|]. split; [reflexivity|].
  exact (item_removed_iff_its_push_succeeded scripted_api
           (renamed_offline [true; false]) [] create_acme [update_acme]
           eq_refl eq_refl Hnd eq_refl).
Defined.

Lemma unregistered_entity_does_not_abort_cycle_witness :
  let later := queued 2 EntityKind.organization Action.delete acme in
  let w : World (list bool) := idle [acme] [create_user; later] [] in
  let before := foldl (process_item scripted_api) (set_isSyncing true w) [] in
  let caught :=
    set_db (SyncQueueTable.update (SyncQueueItem.id create_user)
              (record_error undefined_handler_message) (db before)).2 before in
  SyncQueueItem.entity create_user ≠ EntityKind.organization /\
  isSyncing w = false /\ onLine w = true /\
  NoDup (queue_keys w) /\
  sync_queue (db w) = [] ++ create_user :: [later] /\
  (process_item scripted_api before create_user = caught /\
   net_log caught = net_log before /\
   processQueue scripted_api w =
     set_isSyncing false (foldl (process_item scripted_api) caught [later]) /\
   SyncQueueItem.apply (record_error undefined_handler_message) create_user
     ∈ sync_queue (db (processQueue scripted_api w)) /\
   isSyncing (processQueue scripted_api w) = false).
Proof.
  assert (Hnd : NoDup (queue_keys
            (idle [acme] [create_user; queued 2 EntityKind.organization Action.delete acme]
               ([] : list bool)))).
  { apply (bool_decide_unpack _). vm_compute. exact I. }
  split; [discriminate|]. split; [reflexivity|]. split; [reflexivity|].
  split; [exact Hnd|]. split; [reflexivity|].
  apply (unregistered_entity_does_not_abort_cycle scripted_api
           (idle [acme] [create_user; queued 2 EntityKind.organization Action.delete acme] [])
           [] create_user [queued 2 EntityKind.organization Action.delete acme]);
    [discriminate | reflexivity | reflexivity | exact Hnd | reflexivity].
Defined.

Lemma delete_push_leaves_store_untouched_witness :
  let w : World (list bool) := idle [acme] [delete_acme] [] in
  SyncQueueItem.action delete_acme = Action.delete /\
  push_succeeds scripted_api delete_acme w = true /\
  (organizations (db (process_item scripted_api w delete_acme)) = organizations (db w) /\
   sync_queue (db (process_item scripted_api w delete_acme)) =
     filter (fun y => SyncQueueItem.id y ≠ SyncQueueItem.id delete_acme)
       (sync_queue (db w)) /\
   net_log (process_item scripted_api w delete_acme) =
     net_log w ++ [(ApiDelete (SyncQueueItem.entityId delete_acme), true)]).
Proof.
  split; [reflexivity|]. split; [reflexivity|].
  apply (delete_push_leaves_store_untouched scripted_api
           (idle [acme] [delete_acme] []) delete_acme); reflexivity.
Defined.

Lemma at_most_one_drain_cycle_witness :
  let s : System unit := trigger (mkSystem (one_pending tt) [] []) in
  reachable offline_api s /\
  isSyncing (world s) = true /\
  length (cycles s) <= 1 /\
  trigger s = s /\
  processQueue offline_api (world s) = world s.
Proof.
  assert (Hreach : reachable offline_api (trigger (mkSystem (one_pending tt) [] []))).
  { apply (reachable_step offline_api (mkSystem (one_pending tt) [] [])).
    - apply reachable_initial. repeat split; reflexivity.
    - apply step_trigger. }
  split; [exact Hreach|]. split; [reflexivity|].
  destruct (at_most_one_drain_cycle offline_api _ Hreach) as [Hone Hguard].
  split; [exact Hone|]. apply Hguard. left. reflexivity.
Defined.

Lemma create_then_read_round_trip_witness :
  let w : World unit := idle [] [] tt in
  let created := useAddOrganization "org-1" "2025-01-01T00:00:00.000Z" "Acme" w in
  organizations (db w) !! "org-1" = None /\
  (mutationFn "org-1" "2025-01-01T00:00:00.000Z" "Acme" w).1 = Resolved acme /\
  organizations (db (mutationFn "org-1" "2025-01-01T00:00:00.000Z" "Acme" w).2) !! "org-1"
    = Some acme /\
  created.1 = Resolved acme /\
  organizations (db created.2) !! "org-1" = Some acme /\
  acme ∈ useOrganizations created.2 /\
  net_log created.2 = net_log w /\
  remote created.2 = remote w.
Proof.
  split; [reflexivity|].
  apply (create_then_read_round_trip (idle [] [] tt)
           "org-1" "2025-01-01T00:00:00.000Z" "Acme").
  reflexivity.
Defined.

(** * Further properties of the drain cycle *)

(** The conversation with the server when the requests [cs] are sent one
    after the other, starting in server state [r]: what is recorded of it,
    and the state the server is left in. *)
Fixpoint exchange {Remote} (a : API.t Remote) (cs : list ApiCall) (r : Remote)
  : list (ApiCall * bool) * Remote :=
  match cs with
  | [] => ([], r)
  | c :: cs' =>
      let '(answer, r1) := API.run a c r in
      let '(log, r2) := exchange a cs' r1 in
      ((c, is_resolved answer) :: log, r2)
  end.

Ltac unfold_registered := unfold registered.
Ltac unfold_push_succeeds := unfold push_succeeds.

#[global] Existing Instance registered_dec.

Section CycleProperties.
Context {Remote : Type}.
Variable organizationAPI : API.t Remote.

Local Abbreviation World := (World Remote).
Local Abbreviation process_item := (process_item organizationAPI).
Local Abbreviation processQueue := (processQueue organizationAPI).
Local Abbreviation registered := (registered organizationAPI).
Local Abbreviation push_succeeds := (push_succeeds organizationAPI).

(** The requests of the items of [l] that have a handler, in order. *)
Definition requests (l : list SyncQueueItem.t) : list ApiCall :=
  request <$> filter registered l.

(** The server accepts every request. *)
Definition always_accepts : Prop :=
  forall c r, is_resolved (API.run organizationAPI c r).1 = true.

(** A cycle either returns at its guard or is the loop over the rows. *)
Lemma processQueue_cases (w : World) :
  processQueue w = w \/
  (isSyncing w = false /\ onLine w = true /\
   processQueue w =
     set_isSyncing false (foldl process_item (set_isSyncing true w) (sync_queue (db w)))).
Proof.
  destruct (isSyncing w) eqn:Hs.
  - left. apply processQueue_blocked. left; assumption.
  - destruct (onLine w) eqn:Ho.
    + right. split; [reflexivity|]. split; [reflexivity|].
      apply processQueue_idle; assumption.
    + left. apply processQueue_blocked. right; assumption.
Qed.

Lemma step_rows_sublist (w : World) x :
  without_error <$> sync_queue (db (process_item w x))
    `sublist_of` without_error <$> sync_queue (db w).
Proof.
  destruct (push_succeeds x w) eqn:Hpush.
  - rewrite step_sync_queue, Hpush. apply fmap_sublist, sublist_filter.
  - rewrite (step_failed_rows organizationAPI w x Hpush). reflexivity.
Qed.

Lemma foldl_rows_sublist (l : list SyncQueueItem.t) (w : World) :
  without_error <$> sync_queue (db (foldl process_item w l))
    `sublist_of` without_error <$> sync_queue (db w).
Proof.
  revert w. induction l as [|x l IH]; intros w; simpl; [reflexivity|].
  etransitivity; [apply IH | apply step_rows_sublist].
Qed.

Lemma foldl_sync_queue_seq (l : list SyncQueueItem.t) (w : World) :
  sync_queue_seq (db (foldl process_item w l)) = sync_queue_seq (db w).
Proof.
  revert w. induction l as [|x l IH]; intros w; simpl; [reflexivity|].
  rewrite IH. apply step_sync_queue_seq.
Qed.

(** X1: whatever the server answers, a drain cycle never adds a row to the
    queue, never reorders rows and never changes the key, entity, action,
    payload or [retries] of a row: up to the [error] property, the rows
    after the cycle are a sublist of the rows before it. It does not use up
    a key of the generator either. *)
Theorem cycle_only_removes_rows (w : World) :
  without_error <$> sync_queue (db (processQueue w))
    `sublist_of` without_error <$> sync_queue (db w) /\
  sync_queue_seq (db (processQueue w)) = sync_queue_seq (db w).
Proof.
  destruct (processQueue_cases w) as [-> | (_ & _ & ->)]; [split; reflexivity|].
  split.
  - exact (foldl_rows_sublist (sync_queue (db w)) (set_isSyncing true w)).
  - exact (foldl_sync_queue_seq (sync_queue (db w)) (set_isSyncing true w)).
Qed.

(** A row of the Local Store after an iteration is the row before it, as it
    was or marked; it is marked only by the successful push of a [create] or
    an [update] of that entity. *)
Lemma step_organizations_lookup (w : World) x (id : string) :
  organizations (db (process_item w x)) !! id = organizations (db w) !! id \/
  (organizations (db (process_item w x)) !! id
     = Organization.apply mark_synced <$> organizations (db w) !! id /\
   SyncQueueItem.entity x = EntityKind.organization /\
   SyncQueueItem.action x ≠ Action.delete /\
   SyncQueueItem.entityId x = id).
Proof.
  rewrite step_organizations.
  destruct (push_succeeds x w) eqn:Hpush; simpl; [|left; reflexivity].
  destruct (decide (SyncQueueItem.action x ≠ Action.delete)) as [Ha|Ha].
  - rewrite (bool_decide_eq_true_2 _ Ha).
    destruct (decide (SyncQueueItem.entityId x = id)) as [<-|Hne].
    + right. split; [apply lookup_alter_eq|]. split; [|auto].
      exact (push_succeeds_registered organizationAPI w x Hpush).
    + left. apply lookup_alter_ne. assumption.
  - rewrite (bool_decide_eq_false_2 _ Ha). left; reflexivity.
Qed.

Lemma foldl_organizations_lookup (l : list SyncQueueItem.t) (w : World) (id : string) :
  organizations (db (foldl process_item w l)) !! id = organizations (db w) !! id \/
  (organizations (db (foldl process_item w l)) !! id
     = Organization.apply mark_synced <$> organizations (db w) !! id /\
   exists x, x ∈ l /\
     SyncQueueItem.entity x = EntityKind.organization /\
     SyncQueueItem.action x ≠ Action.delete /\
     SyncQueueItem.entityId x = id).
Proof.
  revert w. induction l as [|x l IH]; intros w; simpl; [left; reflexivity|].
  destruct (IH (process_item w x)) as [Hl | [Hl (y & Hy & Hrest)]];
    destruct (step_organizations_lookup w x id) as [Hx | (Hx & He & Ha & Hi)];
    rewrite Hl, Hx.
  - left; reflexivity.
  - right. split; [reflexivity|]. exists x. split; [apply elem_of_cons; left; reflexivity|].
    auto.
  - right. split; [reflexivity|]. exists y. split; [apply elem_of_cons; right; exact Hy|].
    exact Hrest.
  - right. split.
    + destruct (organizations (db w) !! id); reflexivity.
    + exists x. split; [apply elem_of_cons; left; reflexivity|]. auto.
Qed.

(** X2: a drain cycle never creates or removes a row of the Local Store and
    never changes a [name] or a [lastModified]: every row is left as it was
    or has [{ syncStatus: "synced" }] applied, and the latter only for an
    entity that has a [create] or [update] item of kind [organization] in
    the queue. *)
Theorem cycle_only_marks_synced (w : World) (id : string) :
  organizations (db (processQueue w)) !! id = organizations (db w) !! id \/
  (organizations (db (processQueue w)) !! id
     = Organization.apply mark_synced <$> organizations (db w) !! id /\
   exists x, x ∈ sync_queue (db w) /\
     SyncQueueItem.entity x = EntityKind.organization /\
     SyncQueueItem.action x ≠ Action.delete /\
     SyncQueueItem.entityId x = id).
Proof.
  destruct (processQueue_cases w) as [-> | (_ & _ & ->)]; [left; reflexivity|].
  exact (foldl_organizations_lookup (sync_queue (db w)) (set_isSyncing true w) id).
Qed.

(** X3: with nothing in the queue a call of [processQueue] that finds the
    service idle changes nothing at all, online or not: the flag is set and
    reset, no row is read or written and no request is sent. *)
Theorem empty_queue_cycle_changes_nothing (w : World) :
  isSyncing w = false ->
  sync_queue (db w) = [] ->
  processQueue w = w.
Proof.
  intros Hs Hq. destruct (processQueue_cases w) as [H | (_ & _ & H)]; [exact H|].
  rewrite H, Hq. simpl. destruct w as [d s o r n]. simpl in Hs. rewrite Hs. reflexivity.
Qed.

(** X4: whenever a cycle starts idle it ends with [isSyncing] reset, whatever
    the queue holds and whatever the server answers, and it never changes
    [navigator.onLine]. *)
Theorem cycle_resets_flag (w : World) :
  isSyncing w = false ->
  isSyncing (processQueue w) = false /\ onLine (processQueue w) = onLine w.
Proof.
  intros Hs. destruct (processQueue_cases w) as [-> | (_ & _ & ->)]; [auto|].
  split; [reflexivity|]. simpl.
  exact (foldl_onLine organizationAPI (sync_queue (db w)) (set_isSyncing true w)).
Qed.

(** ** The conversation with the server *)

Lemma exchange_cons (c : ApiCall) (cs : list ApiCall) (r : Remote) :
  exchange organizationAPI (c :: cs) r =
    ((c, is_resolved (API.run organizationAPI c r).1)
       :: (exchange organizationAPI cs (API.run organizationAPI c r).2).1,
     (exchange organizationAPI cs (API.run organizationAPI c r).2).2).
Proof.
  simpl. destruct (API.run organizationAPI c r) as [answer r1]. simpl.
  destruct (exchange organizationAPI cs r1). reflexivity.
Qed.

Lemma registered_entity x :
  registered x <-> SyncQueueItem.entity x = EntityKind.organization.
Proof.
  split; [|apply registered_organization].
  unfold_registered.
  destruct (SyncQueueItem.entity x); simpl; intros [h Hh]; congruence.
Qed.

Lemma push_succeeds_run (w : World) x :
  registered x ->
  push_succeeds x w = is_resolved (API.run organizationAPI (request x) (remote w)).1.
Proof.
  intros Hr%registered_entity. unfold_push_succeeds. rewrite Hr. reflexivity.
Qed.

Lemma step_remote (w : World) x :
  remote (process_item w x) =
    if decide (registered x)
    then (API.run organizationAPI (request x) (remote w)).2
    else remote w.
Proof.
  destruct (decide (registered x)) as [Hreg|Hreg];
    destruct (push_cases organizationAPI w x)
      as [[_ He] | [(_ & He & m & s & Hr) | (_ & He & v & s & Hr)]];
    try (apply registered_entity in Hreg; contradiction);
    try (exfalso; apply Hreg, registered_entity, He).
  - rewrite (process_item_rejected organizationAPI w x m s He Hr), Hr. reflexivity.
  - rewrite (process_item_resolved organizationAPI w x v s He Hr), Hr. reflexivity.
  - rewrite (process_item_no_handler organizationAPI w x He). reflexivity.
Qed.

Lemma foldl_exchange (l : list SyncQueueItem.t) (w : World) :
  net_log (foldl process_item w l)
    = net_log w ++ (exchange organizationAPI (requests l) (remote w)).1 /\
  remote (foldl process_item w l)
    = (exchange organizationAPI (requests l) (remote w)).2.
Proof.
  revert w. induction l as [|x l IH]; intros w; simpl.
  - split; [symmetry; apply app_nil_r | reflexivity].
  - destruct (IH (process_item w x)) as [Hlog Hrem]. rewrite Hlog, Hrem.
    rewrite step_net_log, step_remote. unfold requests, sent.
    rewrite filter_cons. destruct (decide (registered x)) as [Hr|Hr].
    + rewrite fmap_cons, exchange_cons. simpl.
      destruct Hr as [h Hh]. rewrite Hh.
      rewrite (push_succeeds_run w x) by (exists h; exact Hh).
      rewrite <- app_assoc. split; reflexivity.
    + destruct (entityHandlers organizationAPI (SyncQueueItem.entity x)) eqn:Hh;
        [exfalso; apply Hr; eexists; exact Hh|].
      rewrite app_nil_r. split; reflexivity.
Qed.

(** X5: the network side of a cycle depends on nothing but the queue and
    the server. The requests sent are those of the queue items that have a
    handler, in queue order and one at a time, each to the server as the
    previous request left it; neither the Local Store nor an [error]
    recorded earlier has any influence on what is sent. *)
Theorem cycle_conversation (w : World) :
  isSyncing w = false -> onLine w = true ->
  net_log (processQueue w) =
    net_log w ++ (exchange organizationAPI (requests (sync_queue (db w))) (remote w)).1 /\
  remote (processQueue w) =
    (exchange organizationAPI (requests (sync_queue (db w))) (remote w)).2.
Proof.
  intros Hs Ho. rewrite processQueue_idle by assumption.
  exact (foldl_exchange (sync_queue (db w)) (set_isSyncing true w)).
Qed.

(** ** A server that accepts everything *)

Lemma foldl_row_source (l : list SyncQueueItem.t) (w : World) y :
  y ∈ sync_queue (db (foldl process_item w l)) ->
  exists y0, y0 ∈ sync_queue (db w) /\ same_item y y0.
Proof.
  revert w. induction l as [|x l IH]; intros w Hy; simpl in Hy.
  - exists y. unfold same_item. auto.
  - destruct (IH _ Hy) as (y1 & Hy1 & Hi1 & He1 & Hp1).
    apply step_row_source in Hy1 as (y0 & Hy0 & (Hi & He & Hp) & _).
    exists y0. split; [assumption|]. unfold same_item. repeat split; congruence.
Qed.

Section Accepting.
Hypothesis accepting : always_accepts.

Lemma push_succeeds_accepting (w : World) x :
  registered x -> push_succeeds x w = true.
Proof. intros Hr. rewrite push_succeeds_run by assumption. apply accepting. Qed.

Lemma foldl_accepted_key_gone (l : list SyncQueueItem.t) (w : World) x :
  x ∈ l -> registered x ->
  SyncQueueItem.id x ∉ queue_keys (foldl process_item w l).
Proof.
  intros Hx Hr. apply list_elem_of_split in Hx as (l1 & l2 & ->).
  rewrite foldl_app. simpl. intros Hin.
  apply (foldl_queue_keys_subseteq organizationAPI l2) in Hin.
  revert Hin. apply step_queue_keys_succeeded, push_succeeds_accepting, Hr.
Qed.

Lemma foldl_accepted_synced (l : list SyncQueueItem.t) (w : World) x o :
  x ∈ l -> registered x ->
  SyncQueueItem.action x ≠ Action.delete ->
  organizations (db (foldl process_item w l)) !! SyncQueueItem.entityId x = Some o ->
  Organization.syncStatus o = SyncStatus.synced.
Proof.
  intros Hx Hr Ha. apply list_elem_of_split in Hx as (l1 & l2 & ->).
  rewrite foldl_app. simpl.
  set (mid := foldl process_item w l1).
  assert (Hmid : organizations (db (process_item mid x)) !! SyncQueueItem.entityId x
                 = Organization.apply mark_synced
                     <$> organizations (db mid) !! SyncQueueItem.entityId x).
  { rewrite step_organizations, (push_succeeds_accepting mid x Hr),
      (bool_decide_eq_true_2 _ Ha). apply lookup_alter_eq. }
  destruct (foldl_organizations_lookup l2 (process_item mid x) (SyncQueueItem.entityId x))
    as [Hl | [Hl _]]; rewrite Hl, Hmid;
    destruct (organizations (db mid) !! SyncQueueItem.entityId x);
    simpl; intros Ho; try discriminate; injection Ho as <-; reflexivity.
Qed.

End Accepting.

(** X6: against a server that accepts every request, one cycle drains the
    queue of everything that has a handler: no row of a registered kind is
    left, so a queue of [organization] items ends empty; and every
    organization that had a [create] or an [update] queued and is still in
    the Local Store is [synced]. *)
Theorem accepted_cycle_drains_queue (w : World) :
  always_accepts ->
  isSyncing w = false -> onLine w = true ->
  (forall y, y ∈ sync_queue (db (processQueue w)) -> ~ registered y) /\
  (Forall registered (sync_queue (db w)) -> sync_queue (db (processQueue w)) = []) /\
  (forall x o,
     x ∈ sync_queue (db w) -> registered x ->
     SyncQueueItem.action x ≠ Action.delete ->
     organizations (db (processQueue w)) !! SyncQueueItem.entityId x = Some o ->
     Organization.syncStatus o = SyncStatus.synced).
Proof.
  intros Hacc Hs Ho. rewrite processQueue_idle by assumption. simpl.
  assert (Hleft : forall y,
            y ∈ sync_queue (db (foldl process_item (set_isSyncing true w)
                                   (sync_queue (db w)))) -> ~ registered y).
  { intros y Hy Hr.
    destruct (foldl_row_source _ _ _ Hy) as (y0 & Hy0 & Hi & He & _).
    apply (foldl_accepted_key_gone Hacc (sync_queue (db w)) (set_isSyncing true w) y0).
    - exact Hy0.
    - apply registered_entity. rewrite <- He. apply registered_entity, Hr.
    - rewrite <- Hi. apply list_elem_of_fmap_2, Hy. }
  split; [exact Hleft|]. split.
  - intros Hall.
    destruct (sync_queue (db (foldl process_item (set_isSyncing true w)
                                (sync_queue (db w))))) as [|y q] eqn:Hq; [reflexivity|].
    exfalso. apply (Hleft y); [apply elem_of_cons; left; reflexivity|].
    assert (Hy : y ∈ sync_queue (db (foldl process_item (set_isSyncing true w)
                                       (sync_queue (db w)))))
      by (rewrite Hq; apply elem_of_cons; left; reflexivity).
    destruct (foldl_row_source _ _ _ Hy) as (y0 & Hy0 & _ & He & _).
    apply registered_entity. rewrite He. apply registered_entity.
    rewrite Forall_forall in Hall. apply Hall. exact Hy0.
  - intros x o Hx Hr Ha.
    exact (foldl_accepted_synced Hacc (sync_queue (db w)) (set_isSyncing true w)
             x o Hx Hr Ha).
Qed.

End CycleProperties.

(** * Mutations and drain cycles together *)

(** What a caller passes to, and the clock and [uuidv4()] supply for, one
    [mutate(name)]. *)
Record Creation : Set := mkCreation {
  c_uuid : string;
  c_now : string;
  c_name : string
}.

(** The [newOrg] that [mutationFn] builds. *)
Definition newOrg_of (c : Creation) : Organization.t :=
  Organization.mk (c_uuid c) (c_name c) SyncStatus.pending (c_now c).

(** Several mutations, each run to the end of its [onSuccess], one after the
    other. *)
Definition create_all {Remote} (cs : list Creation) (w : World Remote) : World Remote :=
  foldl (fun w c => (useAddOrganization (c_uuid c) (c_now c) (c_name c) w).2) w cs.

(** The rows these mutations append when the generator stands at [k]. *)
Fixpoint enqueued (k : nat) (cs : list Creation) : list SyncQueueItem.t :=
  match cs with
  | [] => []
  | c :: cs' =>
      SyncQueueItem.mk (Some (S k)) EntityKind.organization Action.create
        (newOrg_of c) None None :: enqueued (S k) cs'
  end.

Section MutationsAndCycles.
Context {Remote : Type}.
Variable organizationAPI : API.t Remote.

Local Abbreviation World := (World Remote).
Local Abbreviation process_item := (process_item organizationAPI).
Local Abbreviation processQueue := (processQueue organizationAPI).

Lemma useAddOrganization_fresh (w : World) c :
  organizations (db w) !! c_uuid c = None ->
  (useAddOrganization (c_uuid c) (c_now c) (c_name c) w).2 =
    mkWorld (mkDb (<[c_uuid c := newOrg_of c]> (organizations (db w)))
               (sync_queue (db w) ++ enqueued (sync_queue_seq (db w)) [c])
               (S (sync_queue_seq (db w))))
            (isSyncing w) (onLine w) (remote w) (net_log w).
Proof.
  intros Hfresh. unfold useAddOrganization.
  rewrite (mutationFn_fresh w _ _ _ Hfresh). reflexivity.
Qed.

Lemma create_all_cons (c : Creation) (cs : list Creation) (w : World) :
  create_all (c :: cs) w
  = create_all cs (useAddOrganization (c_uuid c) (c_now c) (c_name c) w).2.
Proof. reflexivity. Qed.

Lemma create_all_fresh (cs : list Creation) (w : World) :
  NoDup (c_uuid <$> cs) ->
  (forall c, c ∈ cs -> organizations (db w) !! c_uuid c = None) ->
  sync_queue (db (create_all cs w))
    = sync_queue (db w) ++ enqueued (sync_queue_seq (db w)) cs /\
  (forall c, c ∈ cs -> organizations (db (create_all cs w)) !! c_uuid c = Some (newOrg_of c)) /\
  (forall id, id ∉ c_uuid <$> cs ->
     organizations (db (create_all cs w)) !! id = organizations (db w) !! id) /\
  isSyncing (create_all cs w) = isSyncing w /\
  onLine (create_all cs w) = onLine w /\
  remote (create_all cs w) = remote w /\
  net_log (create_all cs w) = net_log w.
Proof.
  revert w. induction cs as [|c cs IH]; intros w Hnd Hfresh.
  - simpl. rewrite app_nil_r. repeat split; try reflexivity.
    intros c Hc. apply elem_of_nil in Hc. contradiction.
  - rewrite fmap_cons in Hnd. apply NoDup_cons in Hnd as [Hc Hnd].
    assert (Hfc : organizations (db w) !! c_uuid c = None)
      by (apply Hfresh, elem_of_cons; left; reflexivity).
    rewrite create_all_cons, (useAddOrganization_fresh w c Hfc).
    set (w1 := mkWorld _ _ _ _ _).
    destruct (IH w1 Hnd) as (Hq & Hnew & Hold & Hs & Ho & Hr & Hl).
    { intros c' Hc'. subst w1; simpl. rewrite lookup_insert_ne.
      - apply Hfresh, elem_of_cons. right; assumption.
      - intros Heq. apply Hc. rewrite Heq. apply list_elem_of_fmap_2, Hc'. }
    split; [|split; [|split]].
    + rewrite Hq. subst w1; simpl. rewrite <- app_assoc. reflexivity.
    + intros c' Hc'. apply elem_of_cons in Hc' as [->|Hc']; [|apply Hnew, Hc'].
      rewrite (Hold (c_uuid c) Hc). subst w1; simpl. apply lookup_insert_eq.
    + intros id Hid. rewrite fmap_cons in Hid. apply not_elem_of_cons in Hid as [Hne Hid].
      rewrite (Hold id Hid). subst w1; simpl. apply lookup_insert_ne. congruence.
    + rewrite Hs, Ho, Hr, Hl. subst w1; simpl. auto.
Qed.

Lemma requests_enqueued (k : nat) (cs : list Creation) :
  requests organizationAPI (enqueued k cs) = ApiCreate ∘ newOrg_of <$> cs.
Proof.
  revert k. induction cs as [|c cs IH]; intros k; [reflexivity|].
  unfold requests in *. cbn [enqueued].
  rewrite filter_cons_True by (apply registered_organization; reflexivity).
  rewrite fmap_cons, IH. reflexivity.
Qed.

(** X7: mutations made while the browser is offline are only queued, one
    [create] row each under consecutive keys and in the order of the calls;
    no request is sent, and a [processQueue] call in between returns at its
    guard. Once the browser is online the next cycle sends the requests of
    the rows that were queued before, followed by one [create] request per
    mutation, in the order of the calls. *)
Theorem offline_creations_are_pushed_in_order (cs : list Creation) (w : World) :
  isSyncing w = false -> onLine w = false ->
  NoDup (c_uuid <$> cs) ->
  (forall c, c ∈ cs -> organizations (db w) !! c_uuid c = None) ->
  sync_queue (db (create_all cs w))
    = sync_queue (db w) ++ enqueued (sync_queue_seq (db w)) cs /\
  net_log (create_all cs w) = net_log w /\
  processQueue (create_all cs w) = create_all cs w /\
  (net_log (processQueue (set_onLine true (create_all cs w)))).*1
    = (net_log w).*1 ++ requests organizationAPI (sync_queue (db w))
        ++ (ApiCreate ∘ newOrg_of <$> cs).
Proof.
  intros Hs Ho Hnd Hfresh.
  destruct (create_all_fresh cs w Hnd Hfresh) as (Hq & _ & _ & Hs' & Ho' & _ & Hl).
  split; [exact Hq|]. split; [exact Hl|]. split.
  - apply processQueue_blocked. right. rewrite Ho'. exact Ho.
  - rewrite processQueue_idle by (simpl; congruence).
    pose proof (foldl_net_log_calls organizationAPI
                  (sync_queue (db (create_all cs w)))
                  (set_isSyncing true (set_onLine true (create_all cs w)))) as Hcalls.
    etransitivity; [exact Hcalls|].
    cbn [net_log set_isSyncing set_onLine].
    rewrite Hl, Hq, filter_app, fmap_app.
    pose proof (requests_enqueued (sync_queue_seq (db w)) cs) as Hnew.
    unfold requests in *. rewrite Hnew. reflexivity.
Qed.

(** X8: the whole path of one new organization. After [mutate(name)] on an
    idle, online application with an empty queue, the next cycle sends one
    [create] request carrying the row as it was written ([pending]). If the
    server accepts it the row is [synced], with its name and timestamp
    untouched, and the queue is empty again; if the server rejects it the row
    stays [pending] and the item stays queued with the message of the
    failure. Either way the key of the item is used up. *)
Theorem create_then_sync (w : World) (c : Creation) :
  isSyncing w = false -> onLine w = true ->
  sync_queue (db w) = [] ->
  organizations (db w) !! c_uuid c = None ->
  let created := (useAddOrganization (c_uuid c) (c_now c) (c_name c) w).2 in
  let key := S (sync_queue_seq (db w)) in
  match API.create organizationAPI (newOrg_of c) (remote w) with
  | (Resolved _, s) =>
      processQueue created =
        mkWorld
          (mkDb (<[c_uuid c := Organization.mk (c_uuid c) (c_name c)
                                 SyncStatus.synced (c_now c)]> (organizations (db w)))
                [] key)
          false true s (net_log w ++ [(ApiCreate (newOrg_of c), true)])
  | (Rejected m, s) =>
      processQueue created =
        mkWorld
          (mkDb (<[c_uuid c := newOrg_of c]> (organizations (db w)))
                [SyncQueueItem.mk (Some key) EntityKind.organization Action.create
                   (newOrg_of c) None (Some m)]
                key)
          false true s (net_log w ++ [(ApiCreate (newOrg_of c), false)])
  end.
Proof.
  intros Hs Ho Hq Hfresh created key. subst created.
  rewrite (useAddOrganization_fresh w c Hfresh), Hq. simpl app.
  set (item := SyncQueueItem.mk (Some (S (sync_queue_seq (db w))))
                 EntityKind.organization Action.create (newOrg_of c) None None).
  set (w1 := mkWorld _ _ _ _ _).
  assert (Hcycle : processQueue w1
                   = set_isSyncing false (process_item (set_isSyncing true w1) item)).
  { rewrite processQueue_idle by (subst w1; simpl; assumption). reflexivity. }
  rewrite Hcycle.
  destruct (API.create organizationAPI (newOrg_of c) (remote w)) as [[v|m] s] eqn:Hrun.
  - rewrite (process_item_resolved organizationAPI (set_isSyncing true w1) item v s
               eq_refl Hrun).
    subst w1 item key. simpl. rewrite Ho.
    unfold OrganizationsTable.update; simpl. rewrite lookup_insert_eq.
    rewrite decide_False by discriminate. simpl.
    rewrite insert_insert_eq, filter_cons_False, filter_nil by (simpl; tauto).
    reflexivity.
  - rewrite (process_item_rejected organizationAPI (set_isSyncing true w1) item m s
               eq_refl Hrun).
    subst w1 item key. simpl. rewrite Ho. rewrite decide_True by reflexivity.
    reflexivity.
Qed.

(** X9: a mutation whose [onSuccess] runs while a cycle is suspended is not
    lost and not pushed by that cycle: the items the cycle still has to push
    were read before, so their keys are at most the last key handed out, and
    the row enqueued meanwhile is still in the queue, as it was enqueued,
    when the cycle has pushed them all. *)
Theorem enqueue_during_cycle_survives (rest : list SyncQueueItem.t) (w : World) newOrg :
  (forall x, x ∈ rest ->
     exists k, SyncQueueItem.id x = Some k /\ k <= sync_queue_seq (db w)) ->
  SyncQueueItem.mk (Some (S (sync_queue_seq (db w)))) EntityKind.organization
    Action.create newOrg None None
    ∈ sync_queue (db (foldl process_item (onSuccess newOrg w) rest)).
Proof.
  intros Hold. apply foldl_keeps_row.
  - unfold onSuccess. simpl. apply elem_of_app. right.
    apply list_elem_of_singleton. reflexivity.
  - simpl. intros Hin. apply list_elem_of_fmap in Hin as (x & Hx & Hin).
    destruct (Hold x Hin) as (k & Hk & Hle). rewrite Hk in Hx.
    injection Hx as Hx. lia.
Qed.

End MutationsAndCycles.

(** * The order of the queue *)

(** Keys as Dexie orders them; a row without a key is not ordered. *)
Definition key_lt (a b : option nat) : Prop :=
  match a, b with
  | Some i, Some j => i < j
  | _, _ => False
  end.

(** The rows are listed by ascending key and no key is beyond the last one
    the generator handed out. *)
Definition queue_ascending (d : AppDatabase) : Prop :=
  StronglySorted key_lt (SyncQueueItem.id <$> sync_queue d) /\
  forall x, x ∈ sync_queue d ->
    exists k, SyncQueueItem.id x = Some k /\ k <= sync_queue_seq d.

Section QueueOrder.
Context {Remote : Type}.
Variable organizationAPI : API.t Remote.

Local Abbreviation World := (World Remote).
Local Abbreviation process_item := (process_item organizationAPI).

Lemma StronglySorted_sublist {A} (R : A -> A -> Prop) (l1 l2 : list A) :
  l1 `sublist_of` l2 -> StronglySorted R l2 -> StronglySorted R l1.
Proof.
  induction 1 as [|a l1 l2 Hsub IH|a l1 l2 Hsub IH]; intros Hs.
  - constructor.
  - apply StronglySorted_inv in Hs as [Hs Hall]. constructor; [apply IH, Hs|].
    rewrite Forall_forall in *. intros b Hb. apply Hall.
    exact (elem_of_sublist _ _ _ Hb Hsub).
  - apply StronglySorted_inv in Hs as [Hs _]. apply IH, Hs.
Qed.

Lemma StronglySorted_snoc {A} (R : A -> A -> Prop) (l : list A) b :
  StronglySorted R l -> (forall a, a ∈ l -> R a b) -> StronglySorted R (l ++ [b]).
Proof.
  induction l as [|a l IH]; intros Hs Hb; simpl.
  - repeat constructor.
  - apply StronglySorted_inv in Hs as [Hs Hall]. constructor.
    + apply IH; [exact Hs|]. intros a' Ha'. apply Hb, elem_of_cons. right; exact Ha'.
    + apply Forall_app. split; [exact Hall|].
      constructor; [|constructor]. apply Hb, elem_of_cons. left; reflexivity.
Qed.

Lemma add_queue_ascending (d : AppDatabase) x :
  queue_ascending d -> queue_ascending (SyncQueueTable.add x d).2.
Proof.
  intros [Hs Hb]. split; simpl.
  - rewrite fmap_app. apply StronglySorted_snoc; [exact Hs|].
    intros a Ha. apply list_elem_of_fmap in Ha as (y & -> & Hy).
    destruct (Hb y Hy) as (k & -> & Hle). simpl. lia.
  - intros y Hy. apply elem_of_app in Hy as [Hy|Hy].
    + destruct (Hb y Hy) as (k & Hk & Hle). exists k. split; [assumption | lia].
    + apply list_elem_of_singleton in Hy. subst y.
      exists (S (sync_queue_seq d)). split; [reflexivity | lia].
Qed.

Lemma step_queue_ascending (w : World) x :
  queue_ascending (db w) -> queue_ascending (db (process_item w x)).
Proof.
  intros [Hs Hb]. split.
  - destruct (push_succeeds organizationAPI x w) eqn:Hpush.
    + rewrite step_sync_queue, Hpush.
      apply (StronglySorted_sublist _ _ (SyncQueueItem.id <$> sync_queue (db w)));
        [|exact Hs]. apply fmap_sublist, sublist_filter.
    + pose proof (step_queue_keys_failed organizationAPI w x Hpush) as Hk.
      unfold queue_keys in Hk. rewrite Hk. exact Hs.
  - intros y Hy. rewrite step_sync_queue_seq.
    apply step_row_source in Hy as (y0 & Hy0 & (Hi & _) & _).
    rewrite Hi. apply Hb, Hy0.
Qed.

Lemma system_step_queue_ascending (s s' : System Remote) :
  step organizationAPI s s' ->
  queue_ascending (db (world s)) -> queue_ascending (db (world s')).
Proof.
  intros Hstep Hwf.
  destruct Hstep as [s | s i c Hi | s b | s uuid now name | s i newOrg Hi]; simpl.
  - unfold trigger. destruct (isSyncing (world s) || negb (onLine (world s))); exact Hwf.
  - unfold resume. destruct c as [|[|x [|x' rest]]]; simpl;
      try case_decide; simpl; try exact Hwf; apply step_queue_ascending, Hwf.
  - exact Hwf.
  - destruct (organizations (db (world s)) !! uuid) eqn:Hk.
    + rewrite (mutationFn_taken _ uuid now name _ Hk). exact Hwf.
    + rewrite (mutationFn_fresh _ uuid now name Hk). exact Hwf.
  - exact (add_queue_ascending (db (world s)) _ Hwf).
Qed.

Lemma ascending_keys_NoDup (l : list (option nat)) :
  StronglySorted key_lt l -> NoDup l.
Proof.
  induction 1 as [|a l Hs IH Hall]; [apply NoDup_nil_2|].
  apply NoDup_cons. split; [|exact IH].
  intros Ha. rewrite Forall_forall in Hall. specialize (Hall a Ha).
  destruct a; simpl in Hall; [lia | exact Hall].
Qed.

(** X10: the queue stays in key order. Starting from a database whose rows
    are listed by ascending key, none beyond the generator's last key (an
    empty queue, for one), every run of the application, whatever the
    interleaving of triggers, suspended cycles, connectivity changes and
    mutations, leaves the rows listed by ascending key: the order in which a
    cycle pushes them is the order of their keys, which is the order in
    which they were enqueued, and no two rows share a key. *)
Theorem queue_stays_in_key_order (s s' : System Remote) :
  rtc (step organizationAPI) s s' ->
  queue_ascending (db (world s)) ->
  queue_ascending (db (world s')) /\ NoDup (queue_keys (world s')).
Proof.
  intros Hrun Hwf.
  cut (queue_ascending (db (world s'))).
  { intros H. split; [exact H|]. apply ascending_keys_NoDup, H. }
  induction Hrun as [|s s1 s' Hstep _ IH]; [assumption|].
  apply IH, (system_step_queue_ascending s s1); assumption.
Qed.

End QueueOrder.

(** * The repository on its own *)

Section RepositoryRoundTrips.


(** X12: [add] and [delete] undo each other. Adding an organization whose
    id is new resolves with that id, and deleting the id afterwards gives
    back the database as it was; adding it a second time is rejected with
    a [ConstraintError] and leaves the first row in place. *)
Theorem add_then_delete_restores (d : AppDatabase) (o : Organization.t) :
  organizations d !! Organization.id o = None ->
  let added := Repository.add organizationRepository o d in
  added.1 = Resolved (Organization.id o) /\
  Repository.delete organizationRepository (Organization.id o) added.2 = (Resolved tt, d) /\
  forall o', Organization.id o' = Organization.id o ->
    Repository.add organizationRepository o' added.2 = (Rejected "ConstraintError", added.2).
Proof.
  intros Hfresh. simpl. unfold OrganizationsTable.add. rewrite Hfresh. simpl.
  split; [reflexivity|]. split.
  - unfold OrganizationsTable.delete, set_organizations. simpl.
    rewrite delete_insert_eq, (delete_id _ _ Hfresh). destruct d; reflexivity.
  - intros o' Hid. rewrite Hid, lookup_insert_eq. reflexivity.
Qed.


End RepositoryRoundTrips.

(** * [src/services/organizations/organizationTransformer.ts] *)

Module OrganizationTransformer.

(** An organization as the API sends it, as far as [toLocal] reads it. *)
Record ApiOrganization : Set := mkApi {
  api_id : string;
  officialName : string;
  updated_at : string
}.

(** The body of a [create] request, as [toApiCreate] builds it. *)
Record ApiCreateBody : Set := mkBody {
  body_id : string;
  body_officialName : string
}.

Definition toLocal (apiOrg : ApiOrganization) : Organization.t :=
  Organization.mk (api_id apiOrg) (officialName apiOrg) SyncStatus.synced
    (updated_at apiOrg).

Definition toApiCreate (localOrg : Organization.t) : ApiCreateBody :=
  mkBody (Organization.id localOrg) (Organization.name localOrg).

(** X14: the two transformers agree on what they carry. Going from the API
    format to the local one and back to a [create] body returns the id and
    the official name unchanged; going from a local organization to a
    [create] body and back, with whatever timestamp the server stamps, keeps
    the id and the name but not the sync state: the result is always
    [synced], so [toLocal] gives back the organization itself exactly when
    it was [synced] with that timestamp. *)
Theorem transformer_round_trip (apiOrg : ApiOrganization) (localOrg : Organization.t)
    (stamp : string) :
  toApiCreate (toLocal apiOrg) = mkBody (api_id apiOrg) (officialName apiOrg) /\
  let back := toLocal (mkApi (body_id (toApiCreate localOrg))
                         (body_officialName (toApiCreate localOrg)) stamp) in
  Organization.id back = Organization.id localOrg /\
  Organization.name back = Organization.name localOrg /\
  Organization.syncStatus back = SyncStatus.synced /\
  (back = localOrg <->
   Organization.syncStatus localOrg = SyncStatus.synced /\
   Organization.lastModified localOrg = stamp).
Proof.
  split; [reflexivity|]. simpl.
  split; [reflexivity|]. split; [reflexivity|]. split; [reflexivity|]. split.
  - intros <-. split; reflexivity.
  - intros [Hs Ht]. destruct localOrg as [i n st lm]. simpl in *. subst. reflexivity.
Qed.

End OrganizationTransformer.

(** * [SyncService.start] *)

(** The application together with what [start()] has installed on the page:
    the number of running 30 s intervals and the number of listeners of the
    "online" event. Each call of [start()] adds one of each (the listener is
    a new arrow function every time) and then calls [processQueue()]. *)
Record Page (Remote : Type) : Type := mkPage {
  app : System Remote;
  intervals : nat;
  onlineListeners : nat
}.
Arguments mkPage {Remote}.
Arguments app {Remote}.
Arguments intervals {Remote}.
Arguments onlineListeners {Remote}.

Definition start {Remote} (p : Page Remote) : Page Remote :=
  mkPage (trigger (app p)) (S (intervals p)) (S (onlineListeners p)).

(** The browser comes online: [navigator.onLine] becomes true and the
    listeners of the "online" event are called one after the other. *)
Definition goes_online {Remote} (p : Page Remote) : Page Remote :=
  mkPage
    (Nat.iter (onlineListeners p) trigger
       (mkSystem (set_onLine true (world (app p))) (cycles (app p)) (succeeded (app p))))
    (intervals p) (onlineListeners p).

Section Start.
Context {Remote : Type}.
Variable organizationAPI : API.t Remote.

Lemma trigger_twice (s : System Remote) : trigger (trigger s) = trigger s.
Proof.
  destruct (isSyncing (world s) || negb (onLine (world s))) eqn:Hguard.
  - assert (H : trigger s = s) by (unfold trigger; rewrite Hguard; reflexivity).
    rewrite !H. reflexivity.
  - assert (H : trigger s = mkSystem (set_isSyncing true (world s))
                              (cycles s ++ [AwaitingQueue]) (succeeded s))
      by (unfold trigger; rewrite Hguard; reflexivity).
    rewrite H. reflexivity.
Qed.

(** Calls of [processQueue()] that follow one another without an [await] in
    between act as a single call. *)
Lemma triggers_collapse (n : nat) (s : System Remote) :
  Nat.iter (S n) trigger s = trigger s.
Proof.
  induction n as [|n IH]; [reflexivity|].
  change (Nat.iter (S (S n)) trigger s) with (trigger (Nat.iter (S n) trigger s)).
  rewrite IH. apply trigger_twice.
Qed.

(** X15: [start()] does not protect itself against being called again.
    Called [k + 1] times in a row it leaves [k + 1] intervals and [k + 1]
    "online" listeners more on the page; but the [processQueue()] calls it
    makes act as a single one, so at most one cycle is started: the first
    call passes the guard or not, and the others return at it. *)
Theorem start_again_duplicates_timers_not_cycles (k : nat) (p : Page Remote) :
  Nat.iter (S k) start p =
    mkPage (trigger (app p)) (S k + intervals p) (S k + onlineListeners p).
Proof.
  induction k as [|k IH]; [reflexivity|].
  change (Nat.iter (S (S k)) start p) with (start (Nat.iter (S k) start p)).
  rewrite IH. unfold start. simpl. rewrite trigger_twice. reflexivity.
Qed.

Lemma reachable_triggers (n : nat) (s : System Remote) :
  reachable organizationAPI s -> reachable organizationAPI (Nat.iter n trigger s).
Proof.
  intros Hs. induction n as [|n IH]; [exact Hs|].
  simpl. eapply reachable_step; [exact IH | apply step_trigger].
Qed.

(** X16: however often [start()] has been called, the browser coming online
    starts exactly one cycle when the service is idle: the state afterwards
    is that of a single [processQueue()] call made online, with one more
    suspended cycle and [isSyncing] set. If a cycle is already running the
    event starts none. Either way the application stays within its
    reachable states. *)
Theorem online_event_starts_one_cycle (p : Page Remote) :
  0 < onlineListeners p ->
  reachable organizationAPI (app p) ->
  let online := set_onLine true (world (app p)) in
  app (goes_online p) =
    (if isSyncing (world (app p))
     then mkSystem online (cycles (app p)) (succeeded (app p))
     else mkSystem (set_isSyncing true online) (cycles (app p) ++ [AwaitingQueue])
            (succeeded (app p))) /\
  reachable organizationAPI (app (goes_online p)).
Proof.
  intros Hn Hreach online. split.
  - unfold goes_online. simpl.
    destruct (onlineListeners p) as [|n]; [lia|].
    rewrite triggers_collapse. unfold trigger. simpl.
    destruct (isSyncing (world (app p))); reflexivity.
  - unfold goes_online. simpl. apply reachable_triggers.
    eapply reachable_step; [exact Hreach|].
    exact (step_connectivity organizationAPI (app p) true).
Qed.

End Start.

(** * Further worked examples *)

(** A server that accepts every request. *)
Definition accepting_api : API.t unit :=
  API.mk (fun _ s => (Resolved "{}", s))
         (fun _ _ s => (Resolved "{}", s))
         (fun _ s => (Resolved "{}", s)).

Lemma accepting_api_accepts : always_accepts accepting_api.
Proof. intros c r. destruct c; reflexivity. Defined.

Definition new_acme : Creation :=
  mkCreation "org-1" "2025-01-01T00:00:00.000Z" "Acme".

Definition new_globex : Creation :=
  mkCreation "org-2" "2025-01-03T00:00:00.000Z" "Globex".

(** A fresh installation that is offline. *)
Definition offline_install : World unit :=
  mkWorld empty_db false false tt [].

Lemma empty_queue_cycle_changes_nothing_witness :
  isSyncing (idle [acme] [] tt) = false /\
  sync_queue (db (idle [acme] [] tt)) = [] /\
  processQueue offline_api (idle [acme] [] tt) = idle [acme] [] tt.
Proof.
  split; [reflexivity|]. split; [reflexivity|].
  apply (empty_queue_cycle_changes_nothing offline_api (idle [acme] [] tt));
    reflexivity.
Defined.

Lemma cycle_resets_flag_witness :
  isSyncing (renamed_offline [true; false]) = false /\
  isSyncing (processQueue scripted_api (renamed_offline [true; false])) = false /\
  onLine (processQueue scripted_api (renamed_offline [true; false]))
    = onLine (renamed_offline [true; false]).
Proof.
  split; [reflexivity|].
  apply (cycle_resets_flag scripted_api (renamed_offline [true; false])).
  reflexivity.
Defined.

Lemma cycle_conversation_witness :
  let w := renamed_offline [false; true] in
  isSyncing w = false /\ onLine w = true /\
  net_log (processQueue scripted_api w) =
    net_log w ++ (exchange scripted_api (requests scripted_api (sync_queue (db w)))
                    (remote w)).1 /\
  remote (processQueue scripted_api w) =
    (exchange scripted_api (requests scripted_api (sync_queue (db w))) (remote w)).2.
Proof.
  split; [reflexivity|]. split; [reflexivity|].
  apply (cycle_conversation scripted_api (renamed_offline [false; true]));
    reflexivity.
Defined.

Lemma accepted_cycle_drains_queue_witness :
  let w : World unit := idle [acme_renamed] [create_acme; update_acme] tt in
  always_accepts accepting_api /\
  isSyncing w = false /\ onLine w = true /\
  Forall (registered accepting_api) (sync_queue (db w)) /\
  sync_queue (db (processQueue accepting_api w)) = [] /\
  (forall o,
     organizations (db (processQueue accepting_api w)) !! SyncQueueItem.entityId update_acme
       = Some o ->
     Organization.syncStatus o = SyncStatus.synced).
Proof.
  assert (Hall : Forall (registered accepting_api)
                   (sync_queue (db (idle [acme_renamed] [create_acme; update_acme] tt)))).
  { repeat constructor; apply registered_organization; reflexivity. }
  split; [exact accepting_api_accepts|]. split; [reflexivity|]. split; [reflexivity|].
  split; [exact Hall|].
  destruct (accepted_cycle_drains_queue accepting_api
              (idle [acme_renamed] [create_acme; update_acme] tt)
              accepting_api_accepts eq_refl eq_refl) as (_ & Hempty & Hsynced).
  split; [exact (Hempty Hall)|].
  intros o. apply (Hsynced update_acme o).
  - apply elem_of_cons. right. apply elem_of_cons. left. reflexivity.
  - apply registered_organization. reflexivity.
  - discriminate.
Defined.

Lemma offline_creations_are_pushed_in_order_witness :
  let cs := [new_acme; new_globex] in
  isSyncing offline_install = false /\ onLine offline_install = false /\
  NoDup (c_uuid <$> cs) /\
  (forall c, c ∈ cs -> organizations (db offline_install) !! c_uuid c = None) /\
  sync_queue (db (create_all cs offline_install))
    = sync_queue (db offline_install)
        ++ enqueued (sync_queue_seq (db offline_install)) cs /\
  net_log (create_all cs offline_install) = net_log offline_install /\
  processQueue accepting_api (create_all cs offline_install)
    = create_all cs offline_install /\
  (net_log (processQueue accepting_api
              (set_onLine true (create_all cs offline_install)))).*1
    = (net_log offline_install).*1
        ++ requests accepting_api (sync_queue (db offline_install))
        ++ (ApiCreate ∘ newOrg_of <$> cs).
Proof.
  assert (Hnd : NoDup (c_uuid <$> [new_acme; new_globex])).
  { apply (bool_decide_unpack _). vm_compute. exact I. }
  assert (Hfresh : forall c, c ∈ [new_acme; new_globex] ->
                     organizations (db offline_install) !! c_uuid c = None).
  { intros c _. reflexivity. }
  split; [reflexivity|]. split; [reflexivity|]. split; [exact Hnd|].
  split; [exact Hfresh|].
  exact (offline_creations_are_pushed_in_order accepting_api
           [new_acme; new_globex] offline_install eq_refl eq_refl Hnd Hfresh).
Defined.

Lemma create_then_sync_witness :
  let w : World unit := idle [] [] tt in
  isSyncing w = false /\ onLine w = true /\
  sync_queue (db w) = [] /\
  organizations (db w) !! c_uuid new_acme = None /\
  processQueue accepting_api
    (useAddOrganization (c_uuid new_acme) (c_now new_acme) (c_name new_acme) w).2
  = mkWorld
      (mkDb (<[ "org-1" := Organization.mk "org-1" "Acme" SyncStatus.synced
                             "2025-01-01T00:00:00.000Z" ]> (organizations (db w)))
            [] 1)
      false true tt (net_log w ++ [(ApiCreate (newOrg_of new_acme), true)]).
Proof.
  repeat (split; [reflexivity|]).
  exact (create_then_sync accepting_api (idle [] [] tt) new_acme
           eq_refl eq_refl eq_refl eq_refl).
Defined.

Lemma enqueue_during_cycle_survives_witness :
  let w := renamed_offline [true; true] in
  (forall x, x ∈ [update_acme] ->
     exists k, SyncQueueItem.id x = Some k /\ k <= sync_queue_seq (db w)) /\
  SyncQueueItem.mk (Some (S (sync_queue_seq (db w)))) EntityKind.organization
    Action.create (newOrg_of new_globex) None None
    ∈ sync_queue (db (foldl (process_item scripted_api)
                        (onSuccess (newOrg_of new_globex) w) [update_acme])).
Proof.
  assert (Hold : forall x, x ∈ [update_acme] ->
            exists k, SyncQueueItem.id x = Some k /\
                      k <= sync_queue_seq (db (renamed_offline [true; true]))).
  { intros x Hx. apply list_elem_of_singleton in Hx. subst x.
    exists 2. split; [reflexivity | simpl; lia]. }
  split; [exact Hold|].
  exact (enqueue_during_cycle_survives scripted_api [update_acme]
           (renamed_offline [true; true]) (newOrg_of new_globex) Hold).
Defined.

Lemma queue_stays_in_key_order_witness :
  let s0 : System unit := mkSystem (idle [] [] tt) [] [acme] in
  let s1 : System unit := mkSystem (onSuccess acme (world s0)) [] [] in
  rtc (step offline_api) s0 s1 /\
  queue_ascending (db (world s0)) /\
  queue_ascending (db (world s1)) /\
  NoDup (queue_keys (world s1)).
Proof.
  assert (Hrun : rtc (step offline_api)
                   (mkSystem (idle [] [] tt) [] [acme])
                   (mkSystem (onSuccess acme (idle [] [] tt)) [] [])).
  { apply rtc_once.
    exact (step_onSuccess offline_api (mkSystem (idle [] [] tt) [] [acme]) 0 acme eq_refl). }
  assert (Hasc : queue_ascending (db (idle [] [] (tt : unit)))).
  { split; [constructor|]. intros x Hx. apply elem_of_nil in Hx. contradiction. }
  split; [exact Hrun|]. split; [exact Hasc|].
  exact (queue_stays_in_key_order offline_api _ _ Hrun Hasc).
Defined.

Lemma add_then_delete_restores_witness :
  organizations empty_db !! Organization.id acme = None /\
  (Repository.add organizationRepository acme empty_db).1 = Resolved "org-1" /\
  Repository.delete organizationRepository "org-1"
    (Repository.add organizationRepository acme empty_db).2 = (Resolved tt, empty_db) /\
  (forall o', Organization.id o' = Organization.id acme ->
     Repository.add organizationRepository o'
       (Repository.add organizationRepository acme empty_db).2
     = (Rejected "ConstraintError",
        (Repository.add organizationRepository acme empty_db).2)).
Proof.
  split; [reflexivity|].
  exact (add_then_delete_restores empty_db acme eq_refl).
Defined.


Lemma online_event_starts_one_cycle_witness :
  let p : Page unit := Nat.iter 2 start (mkPage (mkSystem offline_install [] []) 0 0) in
  0 < onlineListeners p /\
  reachable offline_api (app p) /\
  app (goes_online p) =
    mkSystem (set_isSyncing true (set_onLine true offline_install)) [AwaitingQueue] [] /\
  reachable offline_api (app (goes_online p)).
Proof.
  assert (Hreach : reachable offline_api
            (app (Nat.iter 2 start (mkPage (mkSystem offline_install [] []) 0 0)))).
  { apply reachable_initial. repeat split; reflexivity. }
  split; [simpl; lia|]. split; [exact Hreach|].
  exact (online_event_starts_one_cycle offline_api
           (Nat.iter 2 start (mkPage (mkSystem offline_install [] []) 0 0))
           (le_n_S _ _ (le_S _ _ (le_n 0))) Hreach).
Defined.
